(** * Schematic / PCB parity check of KiBot's [update_xml] preflight

    A shallow embedding of [kibot/pre_update_xml.py]: the reading of the
    netlist exported by eeschema ([check_pcb_parity], first half), the
    comparison of components ([check_components]) and of nets
    ([check_nets]) against the board, and the final report.

    Conventions.
    - A Python value that is a [str] or [None] is an [option string]
      ([pystr]); a value the pcbnew API returns as [str] is a [string].
    - A Python [dict] keeps insertion order: it is an association list with
      distinct keys ([PyDict]).
    - A Python [set] is a [gset]; the order in which the interpreter visits
      its elements is not fixed by the language (for strings it follows the
      hash seed of the process), so it is a parameter ([PySetOrder]).
    - The [errors] list is shared and only appended to: it is threaded
      through the functions that receive it.
    - Debug-level logging is left out. *)

From stdpp Require Import gmap strings list pretty.

Open Scope string_scope.
Open Scope list_scope.
Open Scope nat_scope.

Abbreviation pystr := (option string).

(** ['{}'.format(x)] for a [str] or [None]. *)
Definition str_ (x : pystr) : string :=
  match x with
  | Some s => s
  | None => "None"
  end.

(** ** Python dictionaries *)

Module PyDict.
Section dict.
Context {K V : Type} `{EqDecision K}.

(** [d.get(k)] *)
Fixpoint get (d : list (K * V)) (k : K) : option V :=
  match d with
  | [] => None
  | (k', v) :: d' => if decide (k = k') then Some v else get d' k
  end.

(** [d[k] = v]: an existing key keeps its place, a new one goes last. *)
Fixpoint setitem (k : K) (v : V) (d : list (K * V)) : list (K * V) :=
  match d with
  | [] => [(k, v)]
  | (k', v') :: d' =>
      if decide (k = k') then (k, v) :: d' else (k', v') :: setitem k v d'
  end.

(** [d.keys()] *)
Definition keys (d : list (K * V)) : list K := d.*1.

(** [{k: v for ...}], and a loop of [d[k] = v] over the same items. *)
Definition from_items (l : list (K * V)) : list (K * V) :=
  foldl (λ d kv, setitem kv.1 kv.2 d) [] l.

End dict.
End PyDict.

(** ** Python sets *)

(** The order in which a [for] loop, [list(s)] or [','.join(s)] visits the
    elements of a set: some enumeration of the elements, each once. *)
Class PySetOrder := {
  set_iter : ∀ {A : Type} `{Countable A}, gset A → list A;
  set_iter_perm : ∀ {A : Type} `{Countable A} (s : gset A),
    set_iter s ≡ₚ elements s
}.

(** ** Exceptions, exit codes and the log *)

Inductive exn :=
| KiPlotConfigurationError (msg : string)
| TypeError.

(** How a call ends: it returns, raises, or leaves through [sys.exit]. *)
Inductive result (A : Type) :=
| Ok (a : A)
| Raise (e : exn)
| Exit (code : Z).
Arguments Ok {A} a.
Arguments Raise {A} e.
Arguments Exit {A} code.

Definition rbind {A B} (r : result A) (f : A → result B) : result B :=
  match r with
  | Ok a => f a
  | Raise e => Raise e
  | Exit c => Exit c
  end.

(** What the run does that can be seen from outside, in order. *)
Inductive event :=
| LogError (msg : string)
| LogWarning (msg : string)
| LoadBoard.

(** A computation that logs. *)
Definition M (A : Type) : Type := list event * result A.

#[global] Instance M_ret : MRet M := λ A a, ([], Ok a).

#[global] Instance M_bind : MBind M := λ A B f m,
  match m with
  | (t, Ok a) => let '(t', r) := f a in (t ++ t', r)
  | (t, Raise e) => (t, Raise e)
  | (t, Exit c) => (t, Exit c)
  end.

Definition lift {A} (r : result A) : M A := ([], r).
Definition emit (e : event) : M unit := ([e], Ok tt).
Definition exit {A} (code : Z) : M A := ([], Exit code).
Definition when (b : bool) (m : M unit) : M unit := if b then m else mret tt.

(** The constants of [kibot/misc.py] that the module imports. *)
Class Misc := {
  MISSING_TOOL : Z;
  NETLIST_DIFF : Z;
  W_PARITY : string;
  KICAD_VERSION_7_0_1 : Z
}.

(** ** ElementTree *)

#[warnings="-register-all"]
Inductive Element := Elem {
  tag : string;
  attrib : list (string * string);
  text : pystr;
  children : list Element
}.

(** [e.get(name)], [e.attrib.get(name)] *)
Definition attr_get (name : string) (e : Element) : pystr :=
  PyDict.get (attrib e) name.

(** [e.find(t)] with a plain tag: the first child with that tag. *)
Definition find (t : string) (e : Element) : option Element :=
  head (filter (λ c, tag c = t) (children e)).

(** The element and all that is below it, in document order. *)
Fixpoint subtree (e : Element) : list Element :=
  match e with
  | Elem _ _ _ cs => e :: flat_map subtree cs
  end.

(** [e.iter(t)] *)
Definition iter (t : string) (e : Element) : list Element :=
  filter (λ c, tag c = t) (subtree e).

(** ** The netlist read from the XML file (lines 150-178) *)

Record Component := mkComponent {
  val : pystr;
  fp : pystr;
  props : list (pystr * pystr)
}.

(** [x = c.find(t); x = x.text if x is not None else ''] *)
Definition child_text (t : string) (c : Element) : pystr :=
  match find t c with
  | Some x => text x
  | None => Some EmptyString
  end.

(** [{p.get('name'): p.get('value') for p in c.iter('property')}] *)
Definition comp_props (c : Element) : list (pystr * pystr) :=
  PyDict.from_items
    ((λ p, (attr_get "name" p, attr_get "value" p)) <$> iter "property" c).

(** The key and the value of [comps[ref] = Component(val, fp, props)]. *)
Definition comp_item (c : Element) : pystr * Component :=
  (attr_get "ref" c,
   mkComponent (child_text "value" c) (child_text "footprint" c) (comp_props c)).

Definition load_comps (root : Element) : list (pystr * Component) :=
  match find "components" root with
  | Some components => PyDict.from_items (comp_item <$> iter "comp" components)
  | None => []
  end.

(** [node.get('ref')+' pin '+node.get('pin')]: [+] needs two [str]. *)
Definition node_token (node : Element) : result string :=
  match attr_get "ref" node, attr_get "pin" node with
  | Some ref, Some pin => Ok (ref +:+ " pin " +:+ pin)
  | _, _ => Raise TypeError
  end.

(** [{node_token(node) for node in nodes}] *)
Fixpoint node_tokens (nodes : list Element) : result (gset string) :=
  match nodes with
  | [] => Ok ∅
  | node :: nodes' =>
      rbind (node_token node) (λ t,
      rbind (node_tokens nodes') (λ s, Ok ({[t]} ∪ s)))
  end.

(** The loop [for n in nets: net_nodes[n.get('name')] = {...}]. *)
Fixpoint load_net_loop (nets : list Element)
    (net_nodes : list (pystr * gset string)) : result (list (pystr * gset string)) :=
  match nets with
  | [] => Ok net_nodes
  | n :: nets' =>
      rbind (node_tokens (iter "node" n)) (λ s,
      load_net_loop nets' (PyDict.setitem (attr_get "name" n) s net_nodes))
  end.

Definition load_nets (root : Element) : result (list (pystr * gset string)) :=
  match find "nets" root with
  | Some netlist => load_net_loop (iter "net" netlist) []
  | None => Ok []
  end.

Definition nl : string := String (Stdlib.Strings.Ascii.ascii_of_nat 10) EmptyString.

(** Lines 152-158: [ET.parse] has either raised, with [str(e)], or given
    the root of the tree. *)
Definition get_root (fname : string) (parsed : string + Element) : result Element :=
  match parsed with
  | inl e => Raise (KiPlotConfigurationError ("Errors parsing " +:+ fname +:+ nl +:+ e))
  | inr root =>
      if decide (tag root ≠ "export")
      then Raise (KiPlotConfigurationError (fname +:+ " isn't a valid netlist"))
      else Ok root
  end.

(** Lines 150-178: the two dictionaries, or the exception that ends it. *)
Definition load_xml (fname : string) (parsed : string + Element)
    : result (list (pystr * Component) * list (pystr * gset string)) :=
  rbind (get_root fname parsed) (λ root,
  let comps := load_comps root in
  rbind (load_nets root) (λ net_nodes,
  Ok (comps, net_nodes))).

(** ** The board, as pcbnew shows it *)

(** A footprint of the board, one of [GS.get_modules()]. *)
Record Module_ := mkModule {
  GetReference : string;
  GetFPIDAsString : string;
  GetValue : string;
  GetProperties : list (string * string)
}.

(** A pad: [GetParentReference] is [pad.GetParent().GetReference()]. *)
Record PAD := mkPad {
  GetParentReference : string;
  GetNumber : string
}.

Record NETINFO_ITEM := mkNet {
  GetNetname : string
}.

(** [NetsByNetcode] lists the net codes with [GetNetItem] of each;
    [GetNetItems n] is [con.GetNetItems(n, pcbnew.PCB_PAD_T)]. *)
Record BOARD := mkBoard {
  get_modules : list Module_;
  GetNetCount : Z;
  NetsByNetcode : list (Z * NETINFO_ITEM);
  GetNetItems : Z → list PAD
}.

Record GS := mkGS {
  ki5 : bool;
  ki7 : bool;
  kicad_version_n : Z;
  sch_no_ext : string;
  board : BOARD
}.

(** ** The messages *)

(** One constructor for each [errors.append(...)], with the arguments of
    its [format]. [PropertyMismatch] also keeps the name of the property,
    which the text does not show. *)
Inductive Msg :=
| CompNotInSch (ref : string)
| FootprintMismatch (ref pcb_fp : string) (sch_fp : pystr)
| ValueMismatch (ref pcb_val : string) (sch_val : pystr)
| SchPropNotInPCB (ref : string) (p : pystr)
| PropertyMismatch (ref : string) (p : pystr) (v_pcb : string) (v : pystr)
| PCBPropNotInSch (ref : string) (p : pystr)
| CompNotInPCB (ref : pystr)
| NetCountMismatch (pcb_net_count sch_net_count : Z)
| NetNotInSch (net_name : string)
| NetExtra (net_name : string) (dif : list string)
| NetMissing (net_name : string) (dif : list string)
| NetNotInPCB (name : pystr).

#[global] Instance Msg_eq_dec : EqDecision Msg.
Proof. solve_decision. Defined.

(** [sep.join(l)] *)
Fixpoint join (sep : string) (l : list string) : string :=
  match l with
  | [] => EmptyString
  | [x] => x
  | x :: l' => x +:+ sep +:+ join sep l'
  end.

(** The text that [errors] holds for a message. *)
Definition render (m : Msg) : string :=
  match m with
  | CompNotInSch ref => ref +:+ " found in PCB, but not in schematic"
  | FootprintMismatch ref pcb_fp sch_fp =>
      ref +:+ " footprint mismatch (PCB: `" +:+ pcb_fp +:+ "` vs schematic: `"
          +:+ str_ sch_fp +:+ "`)"
  | ValueMismatch ref pcb_val sch_val =>
      ref +:+ " value mismatch (PCB: `" +:+ pcb_val +:+ "` vs schematic: `"
          +:+ str_ sch_val +:+ "`)"
  | SchPropNotInPCB ref p =>
      ref +:+ " schematic property `" +:+ str_ p +:+ "` not in PCB"
  | PropertyMismatch ref _ v_pcb v =>
      ref +:+ " property mismatch (PCB: `" +:+ v_pcb +:+ "` vs schematic: `"
          +:+ str_ v +:+ "`)"
  | PCBPropNotInSch ref p =>
      ref +:+ " PCB property `" +:+ str_ p +:+ "` not in schematic"
  | CompNotInPCB ref => str_ ref +:+ " found in schematic, but not in PCB"
  | NetCountMismatch pcb_net_count sch_net_count =>
      "Net count mismatch (PCB " +:+ pretty pcb_net_count +:+ " vs schematic "
          +:+ pretty sch_net_count +:+ ")"
  | NetNotInSch net_name => "Net `" +:+ net_name +:+ "` not in schematic"
  | NetExtra net_name dif =>
      "Net `" +:+ net_name +:+ "` extra PCB connection/s: " +:+ join "," dif
  | NetMissing net_name dif =>
      "Net `" +:+ net_name +:+ "` missing PCB connection/s: " +:+ join "," dif
  | NetNotInPCB name => "Net `" +:+ str_ name +:+ "` not in PCB"
  end.

(** ** [check_components] and [check_nets] *)

Section reconcile.
Context `{!PySetOrder}.

(** [for x in xs: errors.append(f(x))] *)
Definition append_each {A} (f : A → Msg) (xs : list A) (errors : list Msg) : list Msg :=
  foldl (λ errors x, errors ++ [f x]) errors xs.

(** [pcb_props.get(p)] *)
Definition pcb_props_get (pcb_props : list (string * string)) (p : pystr) : pystr :=
  match p with
  | Some k => PyDict.get pcb_props k
  | None => None
  end.

(** Body of the loop of lines 94-101, on [errors] and [found_props]. *)
Definition check_prop (ref : string) (pcb_props : list (string * string))
    (st : list Msg * gset pystr) (item : pystr * pystr) : list Msg * gset pystr :=
  let '(errors, found_props) := st in
  let '(p, v) := item in
  match pcb_props_get pcb_props p with
  | None => (errors ++ [SchPropNotInPCB ref p], found_props)
  | Some v_pcb =>
      let found_props := {[p]} ∪ found_props in
      if decide (Some v_pcb ≠ v)
      then (errors ++ [PropertyMismatch ref p v_pcb v], found_props)
      else (errors, found_props)
  end.

(** Body of the loop of lines 78-104, on [errors] and [found_comps]. *)
Definition check_module (comps : list (pystr * Component))
    (st : list Msg * gset pystr) (m : Module_) : list Msg * gset pystr :=
  let '(errors, found_comps) := st in
  let ref := GetReference m in
  let found_comps := {[Some ref]} ∪ found_comps in
  match PyDict.get comps (Some ref) with
  | None => (errors ++ [CompNotInSch ref], found_comps)
  | Some sch_data =>
      let pcb_fp := GetFPIDAsString m in
      let errors :=
        if decide (fp sch_data ≠ Some pcb_fp)
        then errors ++ [FootprintMismatch ref pcb_fp (fp sch_data)]
        else errors in
      let pcb_val := GetValue m in
      let errors :=
        if decide (val sch_data ≠ Some pcb_val)
        then errors ++ [ValueMismatch ref pcb_val (val sch_data)]
        else errors in
      let pcb_props := GetProperties m in
      let '(errors, found_props) :=
        foldl (check_prop ref pcb_props) (errors, ∅) (props sch_data) in
      let errors :=
        append_each (PCBPropNotInSch ref)
          (set_iter (list_to_set (Some <$> PyDict.keys pcb_props) ∖ found_props))
          errors in
      (errors, found_comps)
  end.

Definition check_components (b : BOARD) (comps : list (pystr * Component))
    (errors : list Msg) : list Msg :=
  let '(errors, found_comps) :=
    foldl (check_module comps) (errors, ∅) (get_modules b) in
  append_each CompNotInPCB
    (set_iter (list_to_set (PyDict.keys comps) ∖ found_comps)) errors.

(** [pad.GetParent().GetReference()+' pin '+pad.GetNumber()] *)
Definition pad_token (pad : PAD) : string :=
  GetParentReference pad +:+ " pin " +:+ GetNumber pad.

(** Body of the loop of lines 118-136, on [errors] and [pcb_net_names]. *)
Definition check_net (b : BOARD) (net_nodes : list (pystr * gset string))
    (st : list Msg * gset pystr) (item : Z * NETINFO_ITEM) : list Msg * gset pystr :=
  let '(errors, pcb_net_names) := st in
  let '(n, net) := item in
  if decide (n = 0%Z) then st else
  let net_name := GetNetname net in
  match PyDict.get net_nodes (Some net_name) with
  | None => (errors ++ [NetNotInSch net_name], pcb_net_names)
  | Some sch_nodes =>
      let pcb_net_names := {[Some net_name]} ∪ pcb_net_names in
      let pcb_nodes : gset string := list_to_set (pad_token <$> GetNetItems b n) in
      let dif := pcb_nodes ∖ sch_nodes in
      let errors :=
        if decide (dif ≠ ∅)
        then errors ++ [NetExtra net_name (set_iter dif)]
        else errors in
      let dif := sch_nodes ∖ pcb_nodes in
      let errors :=
        if decide (dif ≠ ∅)
        then errors ++ [NetMissing net_name (set_iter dif)]
        else errors in
      (errors, pcb_net_names)
  end.

Definition check_nets (b : BOARD) (net_nodes : list (pystr * gset string))
    (errors : list Msg) : list Msg :=
  let pcb_net_count := (GetNetCount b - 1)%Z in
  let sch_net_count := Z.of_nat (length net_nodes) in
  let errors :=
    if decide (pcb_net_count ≠ sch_net_count)
    then errors ++ [NetCountMismatch pcb_net_count sch_net_count]
    else errors in
  let '(errors, pcb_net_names) :=
    foldl (check_net b net_nodes) (errors, ∅) (NetsByNetcode b) in
  append_each NetNotInPCB
    (filter (λ name, name ∉ pcb_net_names) (PyDict.keys net_nodes)) errors.

(** ** [check_pcb_parity] *)

Context `{!Misc}.

(** Lines 187-194. *)
Definition report (as_warnings : bool) (errors : list string) : M unit :=
  if decide (errors ≠ []) then
    if as_warnings
    then (LogWarning <$> ((λ e, W_PARITY +:+ e) <$> errors), Ok tt)
    else (LogError <$> errors, Exit NETLIST_DIFF)
  else mret tt.

(** Lines 180-185: both comparisons, on a fresh [errors]. *)
Definition reconcile (b : BOARD) (comps : list (pystr * Component))
    (net_nodes : list (pystr * gset string)) : list Msg :=
  let errors := [] in
  let errors := check_components b comps errors in
  let errors := check_nets b net_nodes errors in
  errors.

(** [parsed] is what [ET.parse] does on the file [GS.sch_no_ext+'.xml']. *)
Definition check_pcb_parity (gs : GS) (as_warnings : bool)
    (parsed : string + Element) : M unit :=
  when (ki5 gs) (
    emit (LogError "PCB vs schematic parity only available for KiCad 6");;
    exit MISSING_TOOL);;
  when (ki7 gs && bool_decide (kicad_version_n gs < KICAD_VERSION_7_0_1)%Z) (
    emit (LogError ("Connectivity API is broken on KiCad 7.0.0" +:+ nl +:+
                    "Please upgrade KiCad to 7.0.1 or newer"));;
    exit MISSING_TOOL);;
  let fname := sch_no_ext gs +:+ ".xml" in
  '(comps, net_nodes) ← lift (load_xml fname parsed);
  emit LoadBoard;;
  let errors := reconcile (board gs) comps net_nodes in
  report as_warnings (render <$> errors).

End reconcile.

(** ** What a message is about, and what a loop body emits *)

(** The component a message is about. *)
Definition msg_ref (m : Msg) : option pystr :=
  match m with
  | CompNotInSch ref | FootprintMismatch ref _ _ | ValueMismatch ref _ _
  | SchPropNotInPCB ref _ | PropertyMismatch ref _ _ _ | PCBPropNotInSch ref _ =>
      Some (Some ref)
  | CompNotInPCB ref => Some ref
  | _ => None
  end.

(** The component and the property a message is about. *)
Definition msg_prop (m : Msg) : option (string * pystr) :=
  match m with
  | SchPropNotInPCB ref p | PropertyMismatch ref p _ _ | PCBPropNotInSch ref p =>
      Some (ref, p)
  | _ => None
  end.

(** The net a message is about. *)
Definition msg_net (m : Msg) : option pystr :=
  match m with
  | NetNotInSch name | NetExtra name _ | NetMissing name _ => Some (Some name)
  | NetNotInPCB name => Some name
  | _ => None
  end.

Definition is_count_msg (m : Msg) : Prop :=
  match m with
  | NetCountMismatch _ _ => True
  | _ => False
  end.

#[global] Instance is_count_msg_dec m : Decision (is_count_msg m).
Proof. destruct m; simpl; apply _. Defined.


(** The board with another count of nets, and with other nets. *)
Definition with_net_count (c : Z) (b : BOARD) : BOARD :=
  mkBoard (get_modules b) c (NetsByNetcode b) (GetNetItems b).

Definition with_nets (nets : list (Z * NETINFO_ITEM)) (b : BOARD) : BOARD :=
  mkBoard (get_modules b) (GetNetCount b) nets (GetNetItems b).

(** The tokens of the pads of net [n] of the board. *)
Definition pcb_nodes_of (b : BOARD) (n : Z) : gset string :=
  list_to_set (pad_token <$> GetNetItems b n).

(** The version of KiCad passes the test of lines 143-149. *)
Definition kicad_ok `{!Misc} (gs : GS) : Prop :=
  ki5 gs = false ∧
  (ki7 gs = false ∨ (KICAD_VERSION_7_0_1 ≤ kicad_version_n gs)%Z).

Section emitted.
Context `{!PySetOrder}.

(** What one turn of the loop over the schematic properties appends. *)
Definition prop_msgs (ref : string) (pcb_props : list (string * string))
    (item : pystr * pystr) : list Msg :=
  match pcb_props_get pcb_props item.1 with
  | None => [SchPropNotInPCB ref item.1]
  | Some v_pcb =>
      if decide (Some v_pcb ≠ item.2)
      then [PropertyMismatch ref item.1 v_pcb item.2]
      else []
  end.

(** [found_props] when that loop ends. *)
Definition found_props_of (pcb_props : list (string * string))
    (items : list (pystr * pystr)) : gset pystr :=
  list_to_set (filter (λ p, is_Some (pcb_props_get pcb_props p)) items.*1).

(** The messages about property [p] in the turn of a footprint [ref] that
    the schematic has: the one of its item in the schematic, or else the
    one of a key that only the board has. *)
Definition prop_key_msgs (ref : string) (pcb_props : list (string * string))
    (sch_props : list (pystr * pystr)) (p : pystr) : list Msg :=
  match PyDict.get sch_props p with
  | Some v => prop_msgs ref pcb_props (p, v)
  | None =>
      if decide (p ∈ Some <$> PyDict.keys pcb_props)
      then [PCBPropNotInSch ref p]
      else []
  end.

(** What the loop over the board appends for one footprint. *)
Definition module_msgs (comps : list (pystr * Component)) (m : Module_) : list Msg :=
  let ref := GetReference m in
  match PyDict.get comps (Some ref) with
  | None => [CompNotInSch ref]
  | Some sch_data =>
      let pcb_props := GetProperties m in
      (if decide (fp sch_data ≠ Some (GetFPIDAsString m))
       then [FootprintMismatch ref (GetFPIDAsString m) (fp sch_data)] else []) ++
      (if decide (val sch_data ≠ Some (GetValue m))
       then [ValueMismatch ref (GetValue m) (val sch_data)] else []) ++
      (props sch_data ≫= prop_msgs ref pcb_props) ++
      (PCBPropNotInSch ref <$>
         set_iter (list_to_set (Some <$> PyDict.keys pcb_props)
                     ∖ found_props_of pcb_props (props sch_data)))
  end.

(** [found_comps] when the loop over the board ends. *)
Definition found_comps_of (b : BOARD) : gset pystr :=
  list_to_set ((λ m, Some (GetReference m)) <$> get_modules b).

(** What the comparison of the endpoints of a net appends. *)
Definition endpoint_msgs (net_name : string) (pcb_nodes sch_nodes : gset string)
    : list Msg :=
  (if decide (pcb_nodes ∖ sch_nodes ≠ ∅)
   then [NetExtra net_name (set_iter (pcb_nodes ∖ sch_nodes))] else []) ++
  (if decide (sch_nodes ∖ pcb_nodes ≠ ∅)
   then [NetMissing net_name (set_iter (sch_nodes ∖ pcb_nodes))] else []).

(** What the loop over the nets of the board appends for one net. *)
Definition net_msgs (b : BOARD) (net_nodes : list (pystr * gset string))
    (item : Z * NETINFO_ITEM) : list Msg :=
  if decide (item.1 = 0%Z) then [] else
  let net_name := GetNetname item.2 in
  match PyDict.get net_nodes (Some net_name) with
  | None => [NetNotInSch net_name]
  | Some sch_nodes => endpoint_msgs net_name (pcb_nodes_of b item.1) sch_nodes
  end.

(** [pcb_net_names] when that loop ends. *)
Definition pcb_net_names_of (nets : list (Z * NETINFO_ITEM))
    (net_nodes : list (pystr * gset string)) : gset pystr :=
  list_to_set ((λ item, Some (GetNetname item.2)) <$>
    filter (λ item, item.1 ≠ 0%Z ∧
                    is_Some (PyDict.get net_nodes (Some (GetNetname item.2)))) nets).

(** What the test of the counts appends. *)
Definition count_msgs (b : BOARD) (net_nodes : list (pystr * gset string)) : list Msg :=
  if decide ((GetNetCount b - 1)%Z ≠ Z.of_nat (length net_nodes))
  then [NetCountMismatch (GetNetCount b - 1) (Z.of_nat (length net_nodes))]
  else [].

End emitted.

(** ** Sample inputs *)

(** Two visiting orders: the one of [elements], and its reverse. *)
#[local] Instance order_fwd : PySetOrder :=
  {| set_iter := λ A _ _ s, elements s;
     set_iter_perm := λ A _ _ s, reflexivity _ |}.


(** Values for the constants of [misc.py], for the examples only. *)
Definition sample_misc : Misc :=
  {| MISSING_TOOL := 4; NETLIST_DIFF := 30; W_PARITY := "(W106) ";
     KICAD_VERSION_7_0_1 := 7000001 |}.

Definition leaf (t : string) (a : list (string * string)) (x : pystr) : Element :=
  Elem t a x [].

(** [<export><components><comp ref="R1"><value>10k</value>
    <footprint>R_0603</footprint><property name="MPN" value="A"/></comp>
    <comp ref="C1"/></components><nets><net code="1" name="GND">
    <node ref="R1" pin="1"/><node ref="C1" pin="2"/></net></nets></export>] *)
Definition sample_xml : Element :=
  Elem "export" [("version", "E")] None
    [ Elem "components" [] None
        [ Elem "comp" [("ref", "R1")] None
            [ leaf "value" [] (Some "10k");
              leaf "footprint" [] (Some "R_0603");
              leaf "property" [("name", "MPN"); ("value", "A")] None ];
          leaf "comp" [("ref", "C1")] None ];
      Elem "nets" [] None
        [ Elem "net" [("code", "1"); ("name", "GND")] None
            [ leaf "node" [("ref", "R1"); ("pin", "1")] None;
              leaf "node" [("ref", "C1"); ("pin", "2")] None ] ] ].

(** A board with [R1] (other value, other properties) and [R9], and a net
    [GND] that reaches [R1] pin 1 and [R9] pin 1. *)
Definition sample_board : BOARD :=
  {| get_modules :=
       [ mkModule "R1" "R_0603" "1k" [("Tol", "1%")];
         mkModule "R9" "R_0603" "1k" [] ];
     GetNetCount := 3;
     NetsByNetcode := [ (0%Z, mkNet EmptyString); (1%Z, mkNet "GND"); (2%Z, mkNet "VCC") ];
     GetNetItems := λ n,
       if decide (n = 1%Z) then [ mkPad "R1" "1"; mkPad "R9" "1" ] else [] |}.

Definition sample_gs : GS :=
  {| ki5 := false; ki7 := false; kicad_version_n := 6000011;
     sch_no_ext := "proj"; board := sample_board |}.

(** What the reading of [sample_xml] gives. *)
Definition sample_comps : list (pystr * Component) := load_comps sample_xml.

Definition sample_net_nodes : list (pystr * gset string) :=
  match load_nets sample_xml with
  | Ok net_nodes => net_nodes
  | _ => []
  end.

(** KiCad 5, and KiCad 7.0.0. *)
Definition sample_gs_ki5 : GS :=
  {| ki5 := true; ki7 := false; kicad_version_n := 5001009;
     sch_no_ext := "proj"; board := sample_board |}.

Definition sample_gs_ki7 : GS :=
  {| ki5 := false; ki7 := true; kicad_version_n := 7000000;
     sch_no_ext := "proj"; board := sample_board |}.

(** [<export><nets><net code="1" name="GND"><node ref="R1"/></net></nets>
    </export>]: the [node] has no [pin]. *)
Definition sample_xml_no_pin : Element :=
  Elem "export" [] None
    [ Elem "nets" [] None
        [ Elem "net" [("code", "1"); ("name", "GND")] None
            [ leaf "node" [("ref", "R1")] None ] ] ].

(** [<netlist/>] *)
Definition sample_xml_other_root : Element := leaf "netlist" [] None.




(** [<export><components><comp ref="R1"><value/></comp></components>
    </export>]: the [value] has no text. *)
Definition sample_xml_empty_value : Element :=
  Elem "export" [] None
    [ Elem "components" [] None
        [ Elem "comp" [("ref", "R1")] None [ leaf "value" [] None ] ] ].

(** [<export><components><comp/></components><nets><net/></nets></export>]:
    the [comp] has no [ref] and the [net] no [name]. *)
Definition sample_xml_no_ref : Element :=
  Elem "export" [] None
    [ Elem "components" [] None [ leaf "comp" [] None ];
      Elem "nets" [] None [ leaf "net" [] None ] ].

(** ** What the reading gives, and when the two sides agree *)

(** The token of a [node] that has both attributes. *)
Definition token_of (node : Element) : option string :=
  match attr_get "ref" node, attr_get "pin" node with
  | Some ref, Some pin => Some (ref +:+ " pin " +:+ pin)
  | _, _ => None
  end.

(** A [node] whose token can be built. *)
Definition node_ok (node : Element) : Prop :=
  is_Some (attr_get "ref" node) ∧ is_Some (attr_get "pin" node).

(** Every [node] of every [net] under [nets] can be read. *)
Definition nodes_ok (root : Element) : Prop :=
  ∀ netlist n node,
    find "nets" root = Some netlist →
    n ∈ iter "net" netlist → node ∈ iter "node" n → node_ok node.

(** The endpoints of a [net], from the nodes that can be read. *)
Definition net_tokens (n : Element) : gset string :=
  list_to_set (omap token_of (iter "node" n)).

(** The key and the value of [net_nodes[n.get('name')] = {...}]. *)
Definition net_item (n : Element) : pystr * gset string :=
  (attr_get "name" n, net_tokens n).

(** The [comp] and [net] elements that the two loops visit. *)
Definition comp_elements (root : Element) : list Element :=
  match find "components" root with
  | Some components => iter "comp" components
  | None => []
  end.

Definition net_elements (root : Element) : list Element :=
  match find "nets" root with
  | Some netlist => iter "net" netlist
  | None => []
  end.

(** The same tree with [f tag attrib] for the attributes of each element. *)
Fixpoint map_attrib (f : string → list (string * string) → list (string * string))
    (e : Element) : Element :=
  match e with
  | Elem t a x cs => Elem t (f t a) x (map (map_attrib f) cs)
  end.

(** [f] keeps what [e.get(name)] gives for the four names that are read. *)
Definition keeps_read_attrs
    (f : string → list (string * string) → list (string * string)) : Prop :=
  ∀ t a name, name ∈ ["ref"; "name"; "value"; "pin"] →
    PyDict.get (f t a) name = PyDict.get a name.

(** [del attrib['code']], if it is there. *)
Definition drop_code (t : string) (a : list (string * string)) : list (string * string) :=
  filter (λ kv, kv.1 ≠ "code") a.

(** The properties of the schematic and of the board say the same. *)
Definition props_agree (sch_props : list (pystr * pystr))
    (pcb_props : list (string * string)) : Prop :=
  (∀ p v, (p, v) ∈ sch_props → is_Some v ∧ pcb_props_get pcb_props p = v) ∧
  (∀ k, k ∈ PyDict.keys pcb_props → Some k ∈ PyDict.keys sch_props).

(** The schematic has the footprint, with the same data. *)
Definition module_agrees (comps : list (pystr * Component)) (m : Module_) : Prop :=
  ∃ sch_data,
    PyDict.get comps (Some (GetReference m)) = Some sch_data ∧
    fp sch_data = Some (GetFPIDAsString m) ∧
    val sch_data = Some (GetValue m) ∧
    props_agree (props sch_data) (GetProperties m).

Definition components_agree (b : BOARD) (comps : list (pystr * Component)) : Prop :=
  (∀ m, m ∈ get_modules b → module_agrees comps m) ∧
  (∀ k, k ∈ PyDict.keys comps →
     ∃ m, m ∈ get_modules b ∧ k = Some (GetReference m)).

(** The nets of the board that the loop does not skip, and their names. *)
Definition board_nets (b : BOARD) : list (Z * NETINFO_ITEM) :=
  filter (λ item, item.1 ≠ 0%Z) (NetsByNetcode b).

Definition board_net_names (b : BOARD) : list string :=
  (λ item, GetNetname item.2) <$> board_nets b.

Definition nets_agree (b : BOARD) (net_nodes : list (pystr * gset string)) : Prop :=
  (GetNetCount b - 1)%Z = Z.of_nat (length net_nodes) ∧
  (∀ item, item ∈ board_nets b →
     PyDict.get net_nodes (Some (GetNetname item.2)) = Some (pcb_nodes_of b item.1)) ∧
  (∀ name, name ∈ PyDict.keys net_nodes → name ∈ Some <$> board_net_names b).

(** The names in the messages "not in PCB" and "not in schematic", and the
    references in the messages "found in schematic, but not in PCB". *)
Definition not_in_pcb_name (m : Msg) : option pystr :=
  match m with
  | NetNotInPCB name => Some name
  | _ => None
  end.

Definition not_in_sch_name (m : Msg) : option string :=
  match m with
  | NetNotInSch net_name => Some net_name
  | _ => None
  end.

(** The reference in a message of footprint or value mismatch. *)
Definition msg_field (m : Msg) : option string :=
  match m with
  | FootprintMismatch ref _ _ | ValueMismatch ref _ _ => Some ref
  | _ => None
  end.

(** An error line as the warning that [as_warnings] makes of it. *)
Definition demote `{!Misc} (e : event) : event :=
  match e with
  | LogError msg => LogWarning (W_PARITY +:+ msg)
  | _ => e
  end.

(** * Properties *)

(** ** Dictionaries *)

Section dict_facts.
Context {K V : Type} `{EqDecision K}.
Implicit Types (d : list (K * V)) (k : K) (v : V).

Lemma get_None d k : PyDict.get d k = None ↔ k ∉ PyDict.keys d.
Proof.
  unfold PyDict.keys. induction d as [|[k' v] d IH]; simpl.
  - split; [intros _; apply not_elem_of_nil | done].
  - rewrite not_elem_of_cons. destruct (decide (k = k')); [|tauto].
    split; [done | tauto].
Qed.

Lemma get_is_Some d k : is_Some (PyDict.get d k) ↔ k ∈ PyDict.keys d.
Proof.
  rewrite <- not_eq_None_Some, get_None.
  split; [apply dec_stable | auto].
Qed.

Lemma get_setitem_eq d k v : PyDict.get (PyDict.setitem k v d) k = Some v.
Proof.
  induction d as [|[k' v'] d IH]; simpl.
  - by rewrite decide_True.
  - case_decide; simpl; [by rewrite decide_True | by rewrite decide_False].
Qed.

Lemma get_setitem_ne d k k' v :
  k ≠ k' → PyDict.get (PyDict.setitem k v d) k' = PyDict.get d k'.
Proof.
  intros Hne. induction d as [|[k0 v0] d IH]; simpl.
  - by rewrite decide_False.
  - destruct (decide (k = k0)) as [->|]; simpl.
    + by rewrite !decide_False.
    + by rewrite IH.
Qed.

Lemma keys_setitem_in d k v :
  k ∈ PyDict.keys d → PyDict.keys (PyDict.setitem k v d) = PyDict.keys d.
Proof.
  unfold PyDict.keys. induction d as [|[k0 v0] d IH]; simpl.
  - by intros ?%elem_of_nil.
  - intros Hin. case_decide; simpl; [by subst|].
    f_equal. apply IH. apply elem_of_cons in Hin as [?|?]; done.
Qed.

Lemma keys_setitem_notin d k v :
  k ∉ PyDict.keys d → PyDict.keys (PyDict.setitem k v d) = PyDict.keys d ++ [k].
Proof.
  unfold PyDict.keys. induction d as [|[k0 v0] d IH]; simpl; [done|].
  intros [? ?]%not_elem_of_cons. rewrite decide_False by done.
  simpl. f_equal. by apply IH.
Qed.

Lemma keys_setitem_NoDup d k v :
  NoDup (PyDict.keys d) → NoDup (PyDict.keys (PyDict.setitem k v d)).
Proof.
  intros Hd. destruct (decide (k ∈ PyDict.keys d)).
  - by rewrite keys_setitem_in.
  - rewrite keys_setitem_notin by done.
    apply NoDup_app. repeat split; [done | | apply NoDup_singleton].
    intros x Hx ->%list_elem_of_singleton. done.
Qed.

Lemma from_items_snoc (l : list (K * V)) k v :
  PyDict.from_items (l ++ [(k, v)]) = PyDict.setitem k v (PyDict.from_items l).
Proof. unfold PyDict.from_items. by rewrite foldl_app. Qed.

Lemma from_items_NoDup (l : list (K * V)) : NoDup (PyDict.keys (PyDict.from_items l)).
Proof.
  induction l as [|[k v] l IH] using rev_ind.
  - apply NoDup_nil_2.
  - rewrite from_items_snoc. by apply keys_setitem_NoDup.
Qed.

(** The last item written under a key is the one the dictionary holds. *)
Lemma get_from_items_last (l1 l2 : list (K * V)) k v :
  k ∉ l2.*1 → PyDict.get (PyDict.from_items (l1 ++ (k, v) :: l2)) k = Some v.
Proof.
  induction l2 as [|[k' v'] l2 IH] using rev_ind; intros Hk.
  - rewrite from_items_snoc. apply get_setitem_eq.
  - rewrite fmap_app in Hk. simpl in Hk.
    apply not_elem_of_app in Hk as [Hk Hk'].
    apply not_elem_of_cons in Hk' as [Hk' _].
    rewrite app_comm_cons, app_assoc, from_items_snoc.
    rewrite get_setitem_ne by done. by apply IH.
Qed.

Lemma elem_of_setitem d k v (x : K * V) :
  x ∈ PyDict.setitem k v d → x = (k, v) ∨ x ∈ d.
Proof.
  induction d as [|[k' v'] d IH]; simpl.
  - intros ->%list_elem_of_singleton. by left.
  - case_decide.
    + intros [->|Hx]%elem_of_cons; [by left | right; by right].
    + intros [->|Hx]%elem_of_cons; [right; by left|].
      destruct (IH Hx) as [->|Hd]; [by left | right; by right].
Qed.

(** What a dictionary holds was one of the items written. *)
Lemma elem_of_from_items (l : list (K * V)) (x : K * V) :
  x ∈ PyDict.from_items l → x ∈ l.
Proof.
  induction l as [|[k v] l IH] using rev_ind.
  - done.
  - rewrite from_items_snoc. intros [->|Hx]%elem_of_setitem.
    + apply elem_of_app. right. left.
    + apply elem_of_app. left. by apply IH.
Qed.

(** A key of a dictionary heads exactly one of its items. *)
Lemma get_Some_split d k v :
  PyDict.get d k = Some v →
  ∃ d1 d2, d = d1 ++ (k, v) :: d2 ∧ k ∉ PyDict.keys d1.
Proof.
  unfold PyDict.keys. induction d as [|[k' v'] d IH]; simpl; [done|].
  destruct (decide (k = k')) as [->|Hne].
  - intros [= ->]. exists [], d. split; [done | apply not_elem_of_nil].
  - intros (d1 & d2 & -> & Hk)%IH. exists ((k', v') :: d1), d2.
    split; [done|]. simpl. apply not_elem_of_cons. done.
Qed.

End dict_facts.

(** ** The loops, as what they append *)

Section loops.
Context `{!PySetOrder}.

Lemma foldl_cons {A B} (f : A → B → A) a x l :
  foldl f a (x :: l) = foldl f (f a x) l.
Proof. done. Qed.

Lemma append_each_app {A} (f : A → Msg) xs errors :
  append_each f xs errors = errors ++ (f <$> xs).
Proof.
  unfold append_each. revert errors.
  induction xs as [|x xs IH]; intros errors; simpl.
  - by rewrite app_nil_r.
  - by rewrite IH, <- app_assoc.
Qed.

Lemma check_prop_fold ref pcb_props items errors found_props :
  foldl (check_prop ref pcb_props) (errors, found_props) items =
  (errors ++ (items ≫= prop_msgs ref pcb_props),
   found_props_of pcb_props items ∪ found_props).
Proof.
  unfold found_props_of. revert errors found_props.
  induction items as [|[p v] items IH]; intros errors found_props.
  - simpl. rewrite app_nil_r. f_equal. set_solver.
  - rewrite foldl_cons, bind_cons, fmap_cons, filter_cons.
    unfold prop_msgs at 1, check_prop at 2. simpl.
    destruct (pcb_props_get pcb_props p) as [v_pcb|] eqn:Hget.
    + rewrite (decide_True (P := is_Some _)) by (by eexists).
      destruct (decide (Some v_pcb ≠ v)); rewrite IH; simpl.
      * rewrite <- app_assoc. f_equal. set_solver.
      * f_equal. set_solver.
    + rewrite (decide_False (P := is_Some _)) by (by intros [? ?]).
      rewrite IH, <- app_assoc. done.
Qed.

Lemma check_module_eq comps errors found_comps m :
  check_module comps (errors, found_comps) m =
  (errors ++ module_msgs comps m, {[Some (GetReference m)]} ∪ found_comps).
Proof.
  unfold check_module, module_msgs.
  destruct (PyDict.get comps (Some (GetReference m))) as [sch_data|]; [|done].
  set (e1 := if decide (fp sch_data ≠ Some (GetFPIDAsString m)) then _ else _).
  set (e2 := if decide (val sch_data ≠ Some (GetValue m)) then _ else _).
  rewrite check_prop_fold, append_each_app, (right_id_L ∅ (∪)).
  f_equal. subst e1 e2.
  repeat case_decide; simpl; rewrite <- ?app_assoc, ?app_nil_r; simpl; done.
Qed.

Lemma check_modules_fold comps mods errors found_comps :
  foldl (check_module comps) (errors, found_comps) mods =
  (errors ++ (mods ≫= module_msgs comps),
   list_to_set ((λ m, Some (GetReference m)) <$> mods) ∪ found_comps).
Proof.
  revert errors found_comps.
  induction mods as [|m mods IH]; intros errors found_comps.
  - simpl. rewrite app_nil_r. f_equal. set_solver.
  - rewrite foldl_cons, check_module_eq, IH, bind_cons, fmap_cons.
    rewrite <- app_assoc. f_equal. set_solver.
Qed.

Lemma check_components_eq b comps errors :
  check_components b comps errors =
  errors ++ (get_modules b ≫= module_msgs comps) ++
  (CompNotInPCB <$>
     set_iter (list_to_set (PyDict.keys comps) ∖ found_comps_of b)).
Proof.
  unfold check_components, found_comps_of.
  rewrite check_modules_fold, append_each_app, (right_id_L ∅ (∪)).
  by rewrite <- app_assoc.
Qed.

Lemma check_net_eq b net_nodes errors pcb_net_names item :
  check_net b net_nodes (errors, pcb_net_names) item =
  (errors ++ net_msgs b net_nodes item,
   pcb_net_names_of [item] net_nodes ∪ pcb_net_names).
Proof.
  unfold check_net, net_msgs, pcb_net_names_of, endpoint_msgs, pcb_nodes_of.
  destruct item as [n net]. rewrite filter_cons, filter_nil. simpl.
  destruct (decide (n = 0%Z)) as [->|Hn].
  - rewrite (decide_False (P := _ ∧ _)) by tauto.
    rewrite app_nil_r. f_equal. set_solver.
  - destruct (PyDict.get net_nodes (Some (GetNetname net))) as [sch_nodes|].
    + rewrite (decide_True (P := _ ∧ _)) by (split; [done | by eexists]).
      f_equal; [|set_solver].
      repeat case_decide; simpl; rewrite <- ?app_assoc, ?app_nil_r; simpl; done.
    + rewrite (decide_False (P := _ ∧ _)) by (by intros [_ [? ?]]).
      f_equal. set_solver.
Qed.

Lemma check_nets_fold b net_nodes nets errors pcb_net_names :
  foldl (check_net b net_nodes) (errors, pcb_net_names) nets =
  (errors ++ (nets ≫= net_msgs b net_nodes),
   pcb_net_names_of nets net_nodes ∪ pcb_net_names).
Proof.
  revert errors pcb_net_names.
  induction nets as [|item nets IH]; intros errors pcb_net_names.
  - simpl. rewrite app_nil_r. f_equal. set_solver.
  - rewrite foldl_cons, check_net_eq, IH, bind_cons, <- app_assoc. f_equal.
    unfold pcb_net_names_of. rewrite (filter_cons _ item nets).
    rewrite filter_cons, filter_nil.
    case_decide; simpl; set_solver.
Qed.

Lemma check_nets_eq b net_nodes errors :
  check_nets b net_nodes errors =
  errors ++ count_msgs b net_nodes ++
  (NetsByNetcode b ≫= net_msgs b net_nodes) ++
  (NetNotInPCB <$>
     filter (λ name, name ∉ pcb_net_names_of (NetsByNetcode b) net_nodes)
       (PyDict.keys net_nodes)).
Proof.
  unfold check_nets, count_msgs.
  rewrite check_nets_fold, append_each_app, (right_id_L ∅ (∪)).
  case_decide; rewrite <- ?app_assoc; done.
Qed.

End loops.

(** ** Filtering a list of messages *)

Section filter_facts.
Context {A B : Type}.

Lemma filter_none (P : A → Prop) `{!∀ x, Decision (P x)} (l : list A) :
  (∀ x, x ∈ l → ¬ P x) → filter P l = [].
Proof.
  induction l as [|x l IH]; intros Hl; [done|].
  rewrite filter_cons_False by (apply Hl; left).
  apply IH. intros y Hy. apply Hl. by right.
Qed.

Lemma filter_all (P : A → Prop) `{!∀ x, Decision (P x)} (l : list A) :
  (∀ x, x ∈ l → P x) → filter P l = l.
Proof.
  induction l as [|x l IH]; intros Hl; [done|].
  rewrite filter_cons_True by (apply Hl; left).
  f_equal. apply IH. intros y Hy. apply Hl. by right.
Qed.

Lemma filter_bind (P : B → Prop) `{!∀ y, Decision (P y)} (f : A → list B) (l : list A) :
  filter P (l ≫= f) = l ≫= (λ x, filter P (f x)).
Proof.
  induction l as [|x l IH]; [done|].
  by rewrite !bind_cons, filter_app, IH.
Qed.

Lemma filter_fmap (P : B → Prop) `{!∀ y, Decision (P y)} (f : A → B) (l : list A) :
  filter P (f <$> l) = f <$> filter (λ x, P (f x)) l.
Proof.
  induction l as [|x l IH]; [done|].
  rewrite fmap_cons, !filter_cons, IH. by case_decide.
Qed.

Lemma filter_eq_NoDup `{!EqDecision A} (l : list A) (k : A) :
  NoDup l → k ∈ l → filter (λ x, x = k) l = [k].
Proof.
  induction 1 as [|x l Hx Hl IH]; intros Hk.
  - by apply elem_of_nil in Hk.
  - destruct (decide (x = k)) as [->|Hne].
    + rewrite filter_cons_True by done. f_equal.
      apply filter_none. intros y Hy ->. done.
    + rewrite filter_cons_False by done. apply IH.
      apply elem_of_cons in Hk as [?|?]; [congruence | done].
Qed.

End filter_facts.

(** ** The visiting order of a set *)

Section set_order.
Context `{!PySetOrder} `{Countable A}.

Lemma elem_of_set_iter (s : gset A) x : x ∈ set_iter s ↔ x ∈ s.
Proof. by rewrite set_iter_perm, elem_of_elements. Qed.

Lemma NoDup_set_iter (s : gset A) : NoDup (set_iter s).
Proof. rewrite set_iter_perm. apply NoDup_elements. Qed.

End set_order.

(** ** Components *)

Section components.
Context `{!PySetOrder}.

(** Every message of the turn of a footprint is about that footprint. *)
Lemma module_msgs_ref comps m x :
  x ∈ module_msgs comps m → msg_ref x = Some (Some (GetReference m)).
Proof.
  unfold module_msgs.
  destruct (PyDict.get comps (Some (GetReference m))) as [sch_data|].
  - rewrite !elem_of_app. intros [Hx|[Hx|[Hx|Hx]]].
    + case_decide; [|by apply elem_of_nil in Hx].
      by apply list_elem_of_singleton in Hx as ->.
    + case_decide; [|by apply elem_of_nil in Hx].
      by apply list_elem_of_singleton in Hx as ->.
    + apply list_elem_of_bind in Hx as (item & Hx & _).
      unfold prop_msgs in Hx.
      destruct (pcb_props_get _ _); [case_decide|];
        first [by apply elem_of_nil in Hx
              | by apply list_elem_of_singleton in Hx as ->].
    + by apply list_elem_of_fmap in Hx as (p & -> & _).
  - by intros ->%list_elem_of_singleton.
Qed.

(** C1. A footprint of the board whose reference the schematic does not
    have gets the message "found in PCB, but not in schematic" and no other
    message about that reference (one such message for each footprint that
    carries the reference). A reference of the schematic that no footprint
    of the board carries gets the message "found in schematic, but not in
    PCB" once, after the loop over the board has ended, and no other
    message. *)
Theorem check_components_one_side (b : BOARD) (comps : list (pystr * Component)) :
  let out := check_components b comps [] in
  (∀ r : string, PyDict.get comps (Some r) = None →
     filter (λ x, msg_ref x = Some (Some r)) out =
     (λ _, CompNotInSch r) <$> filter (λ m, GetReference m = r) (get_modules b)) ∧
  (∀ k : pystr, k ∈ PyDict.keys comps →
     (∀ m, m ∈ get_modules b → Some (GetReference m) ≠ k) →
     ∃ tail,
       out = (foldl (check_module comps) ([], ∅) (get_modules b)).1 ++ tail ∧
       CompNotInPCB k ∈ tail ∧
       filter (λ x, msg_ref x = Some k) out = [CompNotInPCB k]).
Proof.
  simpl. rewrite check_components_eq, check_modules_fold. simpl. split.
  - intros r Hr. rewrite filter_app, filter_bind.
    rewrite (filter_none _ (CompNotInPCB <$> _)), app_nil_r.
    + induction (get_modules b) as [|m mods IH]; [done|].
      rewrite bind_cons, IH, filter_cons. case_decide as Hm.
      * unfold module_msgs. rewrite Hm, Hr. by rewrite filter_cons_True.
      * rewrite filter_none; [done|].
        intros x Hx%module_msgs_ref. congruence.
    + intros x (k & -> & Hk)%list_elem_of_fmap. simpl. intros [= ->].
      apply elem_of_set_iter, elem_of_difference in Hk as [Hk _].
      apply elem_of_list_to_set in Hk. by apply get_None in Hr.
  - intros k Hk Hb. eexists. split; [done|].
    assert (k ∈ set_iter (list_to_set (PyDict.keys comps) ∖ found_comps_of b))
      as Hin.
    { apply elem_of_set_iter, elem_of_difference. split.
      - by apply elem_of_list_to_set.
      - unfold found_comps_of. rewrite elem_of_list_to_set.
        intros (m & -> & Hm)%list_elem_of_fmap. by apply (Hb m). }
    split; [by apply list_elem_of_fmap_2|].
    rewrite filter_app, filter_none.
    + simpl. rewrite filter_fmap.
      rewrite (list_filter_iff _ (λ x, x = k)) by (simpl; naive_solver).
      rewrite filter_eq_NoDup; [done | apply NoDup_set_iter | done].
    + intros x (m & Hx & Hm)%list_elem_of_bind.
      apply module_msgs_ref in Hx. rewrite Hx. intros [= <-]. by apply (Hb m).
Qed.

End components.

(** ** Properties of a component *)

Section list_unique.
Context {A B : Type} `{!EqDecision B}.

Lemma filter_key_NoDup (f : A → B) (l : list A) (x : A) :
  NoDup (f <$> l) → x ∈ l → filter (λ y, f y = f x) l = [x].
Proof.
  induction l as [|y l IH]; intros Hnd Hx.
  - by apply elem_of_nil in Hx.
  - rewrite fmap_cons in Hnd. apply NoDup_cons in Hnd as [Hy Hnd].
    apply elem_of_cons in Hx as [->|Hx].
    + rewrite filter_cons_True by done. f_equal.
      apply filter_none. intros z Hz Hfz. apply Hy. rewrite <- Hfz.
      by apply list_elem_of_fmap_2.
    + rewrite filter_cons_False; [by apply IH|].
      intros Hfy. apply Hy. rewrite Hfy. by apply list_elem_of_fmap_2.
Qed.

Lemma filter_key_length (f : A → B) (l : list A) (k : B) :
  NoDup (f <$> l) → length (filter (λ y, f y = k) l) ≤ 1.
Proof.
  intros Hnd. destruct (filter (λ y, f y = k) l) as [|x l'] eqn:Hf; [simpl; lia|].
  assert (x ∈ filter (λ y, f y = k) l) as [Hk Hx]%list_elem_of_filter
    by (rewrite Hf; left).
  rewrite <- Hf, <- Hk, filter_key_NoDup by done. done.
Qed.

Lemma filter_le1_unique (P : A → Prop) `{!∀ x, Decision (P x)} (l : list A) x y :
  length (filter P l) ≤ 1 → x ∈ l → y ∈ l → P x → P y → x = y.
Proof.
  intros Hlen Hx Hy HPx HPy.
  assert (x ∈ filter P l) as Hx' by (by apply list_elem_of_filter).
  assert (y ∈ filter P l) as Hy' by (by apply list_elem_of_filter).
  destruct (filter P l) as [|z [|z' l']]; simpl in Hlen; [| |lia].
  - by apply elem_of_nil in Hx'.
  - apply list_elem_of_singleton in Hx', Hy'. congruence.
Qed.

End list_unique.

Section properties.
Context `{!PySetOrder}.

Lemma pcb_props_get_None pcb_props (p : pystr) :
  pcb_props_get pcb_props p = None ↔ p ∉ Some <$> PyDict.keys pcb_props.
Proof.
  destruct p as [k|]; simpl.
  - rewrite get_None. split.
    + intros Hk (k' & [= <-] & Hk')%list_elem_of_fmap. done.
    + intros Hk Hk'. apply Hk. by apply list_elem_of_fmap_2.
  - split; [|done]. by intros _ (k' & [=] & _)%list_elem_of_fmap.
Qed.

Lemma prop_msgs_prop ref pcb_props item x :
  x ∈ prop_msgs ref pcb_props item → msg_prop x = Some (ref, item.1).
Proof.
  unfold prop_msgs. destruct (pcb_props_get _ _); [case_decide|]; intros Hx;
    first [by apply elem_of_nil in Hx
          | by apply list_elem_of_singleton in Hx as ->].
Qed.

Lemma prop_msgs_length ref pcb_props item :
  length (prop_msgs ref pcb_props item) ≤ 1.
Proof.
  unfold prop_msgs. destruct (pcb_props_get _ _); [case_decide|]; simpl; lia.
Qed.

Lemma prop_key_msgs_length ref pcb_props sch_props p :
  length (prop_key_msgs ref pcb_props sch_props p) ≤ 1.
Proof.
  unfold prop_key_msgs. destruct (PyDict.get _ _).
  - apply prop_msgs_length.
  - case_decide; simpl; lia.
Qed.

(** The items of the schematic, filtered on one property. *)
Lemma filter_sch_props ref pcb_props (items : list (pystr * pystr)) p :
  NoDup (PyDict.keys items) →
  filter (λ x, msg_prop x = Some (ref, p)) (items ≫= prop_msgs ref pcb_props) =
  match PyDict.get items p with
  | Some v => prop_msgs ref pcb_props (p, v)
  | None => []
  end.
Proof.
  unfold PyDict.keys. induction items as [|[p' v'] items IH]; intros Hnd; [done|].
  rewrite fmap_cons in Hnd. apply NoDup_cons in Hnd as [Hp' Hnd].
  rewrite bind_cons, filter_app, IH by done. simpl in *.
  destruct (decide (p = p')) as [->|Hne].
  - rewrite filter_all by (intros x Hx%prop_msgs_prop; done).
    apply (get_None items) in Hp'. rewrite Hp'. apply app_nil_r.
  - rewrite filter_none; [done|].
    intros x Hx%prop_msgs_prop. rewrite Hx. simpl. congruence.
Qed.

(** The keys that only the board has, filtered on one property. *)
Lemma filter_pcb_props (ref : string) (s : gset pystr) (p : pystr) :
  filter (λ x, msg_prop x = Some (ref, p)) (PCBPropNotInSch ref <$> set_iter s) =
  if decide (p ∈ s) then [PCBPropNotInSch ref p] else [].
Proof.
  rewrite filter_fmap.
  rewrite (list_filter_iff _ (λ q, q = p)) by (simpl; naive_solver).
  case_decide as Hp.
  - rewrite filter_eq_NoDup; [done | apply NoDup_set_iter |].
    by apply elem_of_set_iter.
  - rewrite filter_none; [done|].
    intros q Hq%elem_of_set_iter ->. done.
Qed.

Lemma filter_module_msgs comps m sch_data p :
  PyDict.get comps (Some (GetReference m)) = Some sch_data →
  NoDup (PyDict.keys (props sch_data)) →
  filter (λ x, msg_prop x = Some (GetReference m, p)) (module_msgs comps m) =
  prop_key_msgs (GetReference m) (GetProperties m) (props sch_data) p.
Proof.
  intros Hget Hnd. unfold module_msgs, prop_key_msgs. rewrite Hget.
  rewrite !filter_app, filter_sch_props, filter_pcb_props by done.
  rewrite (filter_none _ (if decide (fp _ ≠ _) then _ else _))
    by (case_decide; [intros x ->%list_elem_of_singleton | intros x ?%elem_of_nil];
        done).
  rewrite (filter_none _ (if decide (val _ ≠ _) then _ else _))
    by (case_decide; [intros x ->%list_elem_of_singleton | intros x ?%elem_of_nil];
        done).
  simpl. destruct (PyDict.get (props sch_data) p) as [v|] eqn:Hp.
  - rewrite decide_False; [apply app_nil_r|].
    rewrite elem_of_difference, elem_of_list_to_set.
    unfold found_props_of. rewrite elem_of_list_to_set, list_elem_of_filter.
    intros [Hpcb Hnf]. apply Hnf. split.
    + apply not_eq_None_Some. by intros Hn%pcb_props_get_None.
    + apply get_is_Some. by eexists.
  - apply get_None in Hp. simpl.
    destruct (decide (p ∈ Some <$> PyDict.keys (GetProperties m))) as [Hin|Hnin].
    + rewrite decide_True; [done|].
      rewrite elem_of_difference, elem_of_list_to_set. split; [done|].
      unfold found_props_of. rewrite elem_of_list_to_set, list_elem_of_filter.
      by intros [_ ?].
    + rewrite decide_False; [done|].
      rewrite elem_of_difference, elem_of_list_to_set. by intros [? _].
Qed.

(** The messages about one property of one reference, in all of them. *)
Lemma filter_prop_components b comps ref p :
  (∀ k c, (k, c) ∈ comps → NoDup (PyDict.keys (props c))) →
  filter (λ x, msg_prop x = Some (ref, p)) (check_components b comps []) =
  filter (λ m, GetReference m = ref) (get_modules b) ≫= λ m,
    match PyDict.get comps (Some ref) with
    | Some sch_data => prop_key_msgs ref (GetProperties m) (props sch_data) p
    | None => []
    end.
Proof.
  intros Hcomps. rewrite check_components_eq. simpl.
  rewrite filter_app, (filter_none _ (CompNotInPCB <$> _)), app_nil_r
    by (by intros x (k & -> & _)%list_elem_of_fmap).
  rewrite filter_bind.
  induction (get_modules b) as [|m mods IH]; [done|].
  rewrite bind_cons, IH, filter_cons. case_decide as Hm.
  - rewrite bind_cons. f_equal. subst ref.
    destruct (PyDict.get comps (Some (GetReference m))) as [sch_data|] eqn:Hget.
    + apply filter_module_msgs; [done|].
      apply get_Some_split in Hget as (d1 & d2 & -> & _).
      apply (Hcomps (Some (GetReference m))).
      apply elem_of_app. right. left.
    + unfold module_msgs. by rewrite Hget.
  - rewrite filter_none; [done|].
    intros x Hx%module_msgs_ref Hp. destruct x; simplify_eq/=; done.
Qed.

(** The dictionaries of properties that the reading of the file builds
    have distinct keys. *)
Lemma load_comps_props_NoDup root k c :
  (k, c) ∈ load_comps root → NoDup (PyDict.keys (props c)).
Proof.
  unfold load_comps. destruct (find "components" root) as [components|].
  - intros Hin%elem_of_from_items.
    apply list_elem_of_fmap in Hin as (e & [= -> ->] & _). simpl.
    apply from_items_NoDup.
  - by intros ?%elem_of_nil.
Qed.

(** C9. With the references of the board distinct and the keys of every
    property dictionary of the schematic distinct, the messages about one
    property of one reference are at most one; a property that both sides
    have with different values gets the mismatch message and nothing else;
    and the two "not in" messages never come together for a property. *)
Theorem property_messages_at_most_one (b : BOARD) (comps : list (pystr * Component)) :
  NoDup (GetReference <$> get_modules b) →
  (∀ k c, (k, c) ∈ comps → NoDup (PyDict.keys (props c))) →
  let out := check_components b comps [] in
  (∀ ref p, length (filter (λ x, msg_prop x = Some (ref, p)) out) ≤ 1) ∧
  (∀ m sch_data p v v_pcb,
     m ∈ get_modules b →
     PyDict.get comps (Some (GetReference m)) = Some sch_data →
     PyDict.get (props sch_data) p = Some v →
     pcb_props_get (GetProperties m) p = Some v_pcb →
     Some v_pcb ≠ v →
     filter (λ x, msg_prop x = Some (GetReference m, p)) out =
       [PropertyMismatch (GetReference m) p v_pcb v]) ∧
  (∀ ref p, ¬ (SchPropNotInPCB ref p ∈ out ∧ PCBPropNotInSch ref p ∈ out)).
Proof.
  intros Hrefs Hcomps out.
  assert (∀ ref p, length (filter (λ x, msg_prop x = Some (ref, p)) out) ≤ 1)
    as Hle.
  { intros ref p. subst out. rewrite filter_prop_components by done.
    pose proof (filter_key_length GetReference (get_modules b) ref Hrefs) as Hlen.
    destruct (filter _ (get_modules b)) as [|m [|m' l]]; simpl in Hlen; [| |lia].
    - simpl. lia.
    - rewrite bind_singleton. destruct (PyDict.get comps _).
      + apply prop_key_msgs_length.
      + simpl. lia. }
  split; [done|]. split.
  - intros m sch_data p v v_pcb Hm Hget Hp Hpcb Hne. subst out.
    rewrite filter_prop_components by done.
    rewrite (filter_key_NoDup GetReference) by done.
    rewrite bind_singleton, Hget. unfold prop_key_msgs, prop_msgs.
    rewrite Hp. simpl. rewrite Hpcb. by rewrite decide_True.
  - intros ref p [Hs Hp].
    pose proof (filter_le1_unique _ _ _ _ (Hle ref p) Hs Hp eq_refl eq_refl).
    done.
Qed.

End properties.

(** ** Nets *)

Lemma bind_filter_support {A B} (P : A → Prop) `{!∀ x, Decision (P x)}
    (g : A → list B) (l : list A) :
  (∀ x, x ∈ l → ¬ P x → g x = []) → l ≫= g = filter P l ≫= g.
Proof.
  induction l as [|x l IH]; intros Hl; [done|].
  rewrite filter_cons, bind_cons, IH by (intros y Hy; apply Hl; by right).
  case_decide as HP; [by rewrite bind_cons|].
  by rewrite (Hl x) by (done || left).
Qed.

Section nets.
Context `{!PySetOrder}.

Lemma endpoint_msgs_net net_name pcb_nodes sch_nodes x :
  x ∈ endpoint_msgs net_name pcb_nodes sch_nodes →
  msg_net x = Some (Some net_name).
Proof.
  unfold endpoint_msgs. rewrite elem_of_app.
  intros [Hx|Hx]; case_decide;
    first [by apply elem_of_nil in Hx
          | by apply list_elem_of_singleton in Hx as ->].
Qed.

(** Every message of the turn of a net is about that net, and the net is
    not the net 0. *)
Lemma net_msgs_net b net_nodes item x :
  x ∈ net_msgs b net_nodes item →
  item.1 ≠ 0%Z ∧ msg_net x = Some (Some (GetNetname item.2)).
Proof.
  unfold net_msgs. case_decide; [by intros ?%elem_of_nil|].
  split; [done|].
  destruct (PyDict.get net_nodes _).
  - by eapply endpoint_msgs_net.
  - by apply list_elem_of_singleton in H1 as ->.
Qed.

Lemma net_msgs_zero b net_nodes item :
  ¬ item.1 ≠ 0%Z → net_msgs b net_nodes item = [].
Proof. intros Hz. unfold net_msgs. case_decide; done. Qed.

Lemma elem_of_pcb_net_names nets net_nodes (name : pystr) :
  name ∈ pcb_net_names_of nets net_nodes ↔
  ∃ item, item ∈ nets ∧ name = Some (GetNetname item.2) ∧ item.1 ≠ 0%Z ∧
          is_Some (PyDict.get net_nodes name).
Proof.
  unfold pcb_net_names_of. rewrite elem_of_list_to_set, list_elem_of_fmap.
  split.
  - intros (item & -> & (? & ?)%list_elem_of_filter). naive_solver.
  - intros (item & ? & -> & ? & ?). exists item. split; [done|].
    by apply list_elem_of_filter.
Qed.

(** C2. For a net of the board (not the net 0, its name borne by no other
    such net) whose name the schematic has: the messages about it are one
    "extra PCB connection/s" message when the endpoints of the board minus
    those of the schematic are not empty, then one "missing PCB
    connection/s" message when the difference the other way is not empty;
    each lists the tokens of its difference, each once, joined by commas;
    with equal endpoints there is no message about the net. *)
Theorem check_nets_endpoints (b : BOARD) (net_nodes : list (pystr * gset string))
    (n : Z) (net : NETINFO_ITEM) (sch_nodes : gset string) :
  NoDup ((λ item, GetNetname item.2) <$>
           filter (λ item, item.1 ≠ 0%Z) (NetsByNetcode b)) →
  (n, net) ∈ NetsByNetcode b →
  n ≠ 0%Z →
  PyDict.get net_nodes (Some (GetNetname net)) = Some sch_nodes →
  let net_name := GetNetname net in
  let pcb_nodes : gset string := list_to_set (pad_token <$> GetNetItems b n) in
  let about :=
    filter (λ x, msg_net x = Some (Some net_name)) (check_nets b net_nodes []) in
  about =
    (if decide (pcb_nodes ∖ sch_nodes ≠ ∅)
     then [NetExtra net_name (set_iter (pcb_nodes ∖ sch_nodes))] else []) ++
    (if decide (sch_nodes ∖ pcb_nodes ≠ ∅)
     then [NetMissing net_name (set_iter (sch_nodes ∖ pcb_nodes))] else []) ∧
  set_iter (pcb_nodes ∖ sch_nodes) ≡ₚ elements (pcb_nodes ∖ sch_nodes) ∧
  set_iter (sch_nodes ∖ pcb_nodes) ≡ₚ elements (sch_nodes ∖ pcb_nodes) ∧
  (∀ dif, render (NetExtra net_name dif) =
     "Net `" +:+ net_name +:+ "` extra PCB connection/s: " +:+ join "," dif) ∧
  (∀ dif, render (NetMissing net_name dif) =
     "Net `" +:+ net_name +:+ "` missing PCB connection/s: " +:+ join "," dif) ∧
  (pcb_nodes = sch_nodes → about = []).
Proof.
  intros Hnd Hin Hn Hget net_name pcb_nodes about.
  assert (about = endpoint_msgs net_name pcb_nodes sch_nodes) as Habout.
  { subst about. rewrite check_nets_eq. simpl.
    rewrite !filter_app.
    rewrite (filter_none _ (count_msgs _ _)).
    2:{ unfold count_msgs. intros x Hx.
        case_decide; [by apply list_elem_of_singleton in Hx as -> |
                      by apply elem_of_nil in Hx]. }
    rewrite (filter_none _ (NetNotInPCB <$> _)).
    2:{ intros x (name & -> & [Hname _]%list_elem_of_filter)%list_elem_of_fmap.
        simpl. intros [= ->]. apply Hname, elem_of_pcb_net_names.
        exists (n, net). repeat split; [done..|]. by exists sch_nodes. }
    rewrite app_nil_r. simpl. rewrite filter_bind.
    rewrite (bind_filter_support (λ item, item.1 ≠ 0%Z))
      by (intros item _ Hz; by rewrite net_msgs_zero).
    rewrite (bind_filter_support (λ item, GetNetname item.2 = GetNetname (n, net).2)).
    2:{ intros item _ Hne. apply filter_none.
        intros x [_ Hx]%net_msgs_net. rewrite Hx. simpl in *.
        subst net_name. congruence. }
    rewrite (filter_key_NoDup (λ item, GetNetname item.2))
      by (done || by apply list_elem_of_filter).
    rewrite bind_singleton. unfold net_msgs. simpl.
    rewrite decide_False, Hget by done.
    apply filter_all. intros x Hx. by eapply endpoint_msgs_net. }
  split; [done|].
  split; [apply set_iter_perm|]. split; [apply set_iter_perm|].
  split; [done|]. split; [done|].
  intros Heq. rewrite Habout, Heq. unfold endpoint_msgs.
  rewrite !decide_False by (intros Hne; apply Hne; set_solver). done.
Qed.

Lemma net_msgs_not_count b net_nodes item x :
  x ∈ net_msgs b net_nodes item → ¬ is_count_msg x.
Proof. intros [_ Hx]%net_msgs_net Hc. by destruct x. Qed.

(** C4. The count of the board is [GetNetCount] less one, for the net 0;
    when it is not the count of the schematic there is one message for
    it, else none, and it comes first; all the other messages are what
    they would be with any other count; and an entry for the net 0 in the
    nets of the board changes nothing. *)
Theorem check_nets_count (b : BOARD) (net_nodes : list (pystr * gset string)) :
  let out := check_nets b net_nodes [] in
  let pcb_net_count := (GetNetCount b - 1)%Z in
  let sch_net_count := Z.of_nat (length net_nodes) in
  filter is_count_msg out =
    (if decide (pcb_net_count ≠ sch_net_count)
     then [NetCountMismatch pcb_net_count sch_net_count] else []) ∧
  out = filter is_count_msg out ++ filter (λ x, ¬ is_count_msg x) out ∧
  (∀ c, filter (λ x, ¬ is_count_msg x) (check_nets (with_net_count c b) net_nodes [])
        = filter (λ x, ¬ is_count_msg x) out) ∧
  check_nets (with_nets (filter (λ item, item.1 ≠ 0%Z) (NetsByNetcode b)) b)
    net_nodes [] = out.
Proof.
  simpl.
  assert (∀ b', filter is_count_msg
            ((NetsByNetcode b' ≫= net_msgs b' net_nodes) ++
             (NetNotInPCB <$> filter (λ name, name ∉
                pcb_net_names_of (NetsByNetcode b') net_nodes)
                (PyDict.keys net_nodes))) = []) as Hrest.
  { intros b'. apply filter_none. intros x [Hx|Hx]%elem_of_app.
    - apply list_elem_of_bind in Hx as (item & Hx & _).
      by eapply net_msgs_not_count.
    - apply list_elem_of_fmap in Hx as (name & -> & _). by intros []. }
  assert (∀ b', filter (λ x, ¬ is_count_msg x)
            ((NetsByNetcode b' ≫= net_msgs b' net_nodes) ++
             (NetNotInPCB <$> filter (λ name, name ∉
                pcb_net_names_of (NetsByNetcode b') net_nodes)
                (PyDict.keys net_nodes))) =
            (NetsByNetcode b' ≫= net_msgs b' net_nodes) ++
             (NetNotInPCB <$> filter (λ name, name ∉
                pcb_net_names_of (NetsByNetcode b') net_nodes)
                (PyDict.keys net_nodes))) as Hrest'.
  { intros b'. apply filter_all. intros x [Hx|Hx]%elem_of_app.
    - apply list_elem_of_bind in Hx as (item & Hx & _).
      by eapply net_msgs_not_count.
    - apply list_elem_of_fmap in Hx as (name & -> & _). by intros []. }
  assert (∀ b', filter is_count_msg (count_msgs b' net_nodes)
                = count_msgs b' net_nodes) as Hc.
  { intros b'. unfold count_msgs. by case_decide. }
  assert (∀ b', filter (λ x, ¬ is_count_msg x) (count_msgs b' net_nodes) = [])
    as Hc'.
  { intros b'. unfold count_msgs. case_decide; [|done].
    apply filter_none. intros x ->%list_elem_of_singleton Hx. by apply Hx. }
  rewrite !check_nets_eq. simpl.
  rewrite (filter_app is_count_msg), (filter_app (λ x, ¬ is_count_msg x)).
  rewrite Hc, Hc', Hrest, Hrest', app_nil_r. simpl.
  split; [done|]. split; [done|]. split.
  - intros c. rewrite check_nets_eq. simpl. rewrite filter_app.
    rewrite Hc'. simpl. apply (Hrest' (with_net_count c b)).
  - f_equal. f_equal.
    + symmetry. apply (bind_filter_support (λ item, item.1 ≠ 0%Z)).
      intros item _ Hz. by apply net_msgs_zero.
    + unfold pcb_net_names_of. simpl. rewrite list_filter_filter.
      rewrite (list_filter_iff
                 (λ a : Z * NETINFO_ITEM,
                    (a.1 ≠ 0%Z ∧
                     is_Some (PyDict.get net_nodes (Some (GetNetname a.2)))) ∧
                    a.1 ≠ 0%Z)
                 (λ a, a.1 ≠ 0%Z ∧
                       is_Some (PyDict.get net_nodes (Some (GetNetname a.2)))))
        by tauto.
      done.
Qed.

End nets.

(** ** The run as a whole *)

Section run.
Context `{!PySetOrder} `{!Misc}.

(** With a version of KiCad that passes, the run is the reading of the
    file, then the comparison, then the report. *)
Lemma check_pcb_parity_ok gs as_warnings parsed :
  kicad_ok gs →
  check_pcb_parity gs as_warnings parsed =
  match load_xml (sch_no_ext gs +:+ ".xml") parsed with
  | Ok (comps, net_nodes) =>
      let r := report as_warnings (render <$> reconcile (board gs) comps net_nodes) in
      (LoadBoard :: r.1, r.2)
  | Raise e => ([], Raise e)
  | Exit c => ([], Exit c)
  end.
Proof.
  intros [H5 H7]. unfold check_pcb_parity. rewrite H5.
  assert (ki7 gs && bool_decide (kicad_version_n gs < KICAD_VERSION_7_0_1)%Z
          = false) as ->.
  { destruct H7 as [->|H7]; [done|].
    rewrite bool_decide_eq_false_2 by lia. apply andb_false_r. }
  simpl. destruct (load_xml _ _) as [[comps net_nodes]| |]; simpl; [|done..].
  by destruct (report _ _).
Qed.

(** With a version of KiCad that does not pass, the run is an error line
    and [exit(MISSING_TOOL)]. *)
Lemma check_pcb_parity_old gs as_warnings parsed :
  ki5 gs = true ∨ (ki7 gs = true ∧ (kicad_version_n gs < KICAD_VERSION_7_0_1)%Z) →
  ∃ msg, check_pcb_parity gs as_warnings parsed = ([LogError msg], Exit MISSING_TOOL).
Proof.
  unfold check_pcb_parity. destruct (ki5 gs) eqn:H5.
  - intros _. by eexists.
  - intros [?|[-> Hv]]; [done|].
    rewrite bool_decide_eq_true_2 by done. by eexists.
Qed.

Lemma load_xml_bad fname parsed :
  match parsed with inl _ => True | inr root => tag root ≠ "export" end →
  ∃ msg, load_xml fname parsed = Raise (KiPlotConfigurationError msg).
Proof.
  unfold load_xml, get_root. destruct parsed as [e|root]; intros Hbad.
  - by eexists.
  - rewrite decide_True by done. by eexists.
Qed.

(** C3. With a version of KiCad that passes and a file that is read: with
    no message the run logs nothing and returns; with messages and
    [as_warnings] every message is logged as a warning, behind [W_PARITY],
    and the run returns; with messages and no [as_warnings] every message
    is logged as an error and the run ends in [exit(NETLIST_DIFF)]. *)
Theorem report_outcome (gs : GS) (as_warnings : bool) (parsed : string + Element)
    (comps : list (pystr * Component)) (net_nodes : list (pystr * gset string)) :
  kicad_ok gs →
  load_xml (sch_no_ext gs +:+ ".xml") parsed = Ok (comps, net_nodes) →
  let errors := render <$> reconcile (board gs) comps net_nodes in
  let run := check_pcb_parity gs as_warnings parsed in
  (errors = [] → run = ([LoadBoard], Ok tt)) ∧
  (errors ≠ [] → as_warnings = true →
     run = (LoadBoard :: (LogWarning <$> ((λ e, W_PARITY +:+ e) <$> errors)), Ok tt)) ∧
  (errors ≠ [] → as_warnings = false →
     run = (LoadBoard :: (LogError <$> errors), Exit NETLIST_DIFF)).
Proof.
  intros Hok Hload errors run. subst run.
  rewrite check_pcb_parity_ok, Hload by done. fold errors. unfold report.
  repeat split.
  - intros ->. done.
  - intros Hne ->. by rewrite decide_True.
  - intros Hne ->. by rewrite decide_True.
Qed.

(** C5. When [ET.parse] raises, or the root of the tree is not [export],
    the reading ends in a [KiPlotConfigurationError] and gives no
    dictionary; the run, with a version of KiCad that passes, ends in that
    exception with nothing logged; and with any version it does not reach
    the board, nor return. *)
Theorem bad_xml_raises (gs : GS) (as_warnings : bool) (parsed : string + Element) :
  match parsed with inl _ => True | inr root => tag root ≠ "export" end →
  let run := check_pcb_parity gs as_warnings parsed in
  (∃ msg, load_xml (sch_no_ext gs +:+ ".xml") parsed
          = Raise (KiPlotConfigurationError msg)) ∧
  (kicad_ok gs → ∃ msg, run = ([], Raise (KiPlotConfigurationError msg))) ∧
  (LoadBoard ∉ run.1) ∧ run.2 ≠ Ok tt.
Proof.
  intros Hbad run.
  destruct (load_xml_bad (sch_no_ext gs +:+ ".xml") parsed Hbad) as [msg Hmsg].
  split; [by exists msg|].
  assert (kicad_ok gs → run = ([], Raise (KiPlotConfigurationError msg))) as Hrun.
  { intros Hok. subst run. by rewrite check_pcb_parity_ok, Hmsg. }
  split; [intros Hok; exists msg; by apply Hrun|].
  destruct (ki5 gs) eqn:H5.
  { destruct (check_pcb_parity_old gs as_warnings parsed) as [m Hm]; [by left|].
    subst run. rewrite Hm. simpl. split; [|done].
    by intros ?%list_elem_of_singleton. }
  destruct (ki7 gs) eqn:H7.
  - destruct (decide (kicad_version_n gs < KICAD_VERSION_7_0_1)%Z) as [Hv|Hv].
    + destruct (check_pcb_parity_old gs as_warnings parsed) as [m Hm];
        [by right|].
      subst run. rewrite Hm. simpl. split; [|done].
      by intros ?%list_elem_of_singleton.
    + rewrite Hrun by (split; [done | right; lia]). simpl.
      split; [apply not_elem_of_nil | done].
  - rewrite Hrun by (split; [done | by left]). simpl.
    split; [apply not_elem_of_nil | done].
Qed.

(** C6. With KiCad 5, or with KiCad 7 before [KICAD_VERSION_7_0_1], the run
    logs one error and ends in [exit(MISSING_TOOL)], whatever [as_warnings]
    is and whatever the file holds: the board is not reached, and no
    warning is logged. *)
Theorem old_kicad_exits (gs : GS) (as_warnings : bool) (parsed : string + Element) :
  ki5 gs = true ∨ (ki7 gs = true ∧ (kicad_version_n gs < KICAD_VERSION_7_0_1)%Z) →
  let run := check_pcb_parity gs as_warnings parsed in
  run.2 = Exit MISSING_TOOL ∧
  (∃ msg, run.1 = [LogError msg]) ∧
  (LoadBoard ∉ run.1) ∧
  (∀ as_warnings' parsed', check_pcb_parity gs as_warnings' parsed' = run).
Proof.
  intros Hold run.
  assert (∀ as_warnings' parsed', check_pcb_parity gs as_warnings' parsed' = run)
    as Hsame.
  { intros w' parsed'. subst run. unfold check_pcb_parity.
    destruct (ki5 gs); [done|]. destruct Hold as [?|[-> Hv]]; [done|].
    by rewrite bool_decide_eq_true_2 by done. }
  destruct (check_pcb_parity_old gs as_warnings parsed Hold) as [msg Hmsg].
  fold run in Hmsg. rewrite Hmsg in *. simpl.
  split; [done|]. split; [by exists msg|]. split; [|done].
  by intros ?%list_elem_of_singleton.
Qed.

End run.

(** ** The reading of the file *)

Section reading.
Context `{!PySetOrder} `{!Misc}.

Lemma node_token_raise node :
  attr_get "ref" node = None ∨ attr_get "pin" node = None →
  node_token node = Raise TypeError.
Proof.
  unfold node_token. intros [->| ->]; [done|].
  by destruct (attr_get "ref" node).
Qed.

(** The set of tokens is built, or a [TypeError] comes out. *)
Lemma node_tokens_cases nodes :
  (∃ s, node_tokens nodes = Ok s) ∨ node_tokens nodes = Raise TypeError.
Proof.
  induction nodes as [|node nodes IH]; simpl; [left; by eexists|].
  unfold node_token.
  destruct (attr_get "ref" node), (attr_get "pin" node); simpl; auto.
  destruct IH as [[toks ->]| ->]; simpl; [left; by eexists | by right].
Qed.

Lemma node_tokens_bad nodes node :
  node ∈ nodes →
  attr_get "ref" node = None ∨ attr_get "pin" node = None →
  node_tokens nodes = Raise TypeError.
Proof.
  intros Hin Hbad. induction nodes as [|node' nodes IH].
  - by apply elem_of_nil in Hin.
  - simpl. apply elem_of_cons in Hin as [<-|Hin].
    + by rewrite node_token_raise.
    + rewrite IH by done. unfold node_token.
      by destruct (attr_get "ref" node'), (attr_get "pin" node').
Qed.

Lemma load_net_loop_bad nets n net_nodes :
  n ∈ nets →
  node_tokens (iter "node" n) = Raise TypeError →
  load_net_loop nets net_nodes = Raise TypeError.
Proof.
  intros Hin Hbad. revert net_nodes.
  induction nets as [|n' nets IH]; intros net_nodes.
  - by apply elem_of_nil in Hin.
  - simpl. apply elem_of_cons in Hin as [<-|Hin].
    + by rewrite Hbad.
    + destruct (node_tokens_cases (iter "node" n')) as [[s ->]| ->]; simpl.
      * by apply IH.
      * done.
Qed.

(** C8. A [comp] with no [value] child, or no [footprint] child, gives a
    component whose value, or footprint, is the empty string: that is what
    the dictionary holds under its reference when no later [comp] has the
    same reference. A tree with no [components] child gives no component,
    one with no [nets] child gives no net, and neither is an error. *)
Theorem load_xml_lenient (root : Element) :
  (∀ components l1 c l2,
     find "components" root = Some components →
     iter "comp" components = l1 ++ c :: l2 →
     attr_get "ref" c ∉ attr_get "ref" <$> l2 →
     ∃ comp,
       PyDict.get (load_comps root) (attr_get "ref" c) = Some comp ∧
       (find "value" c = None → val comp = Some EmptyString) ∧
       (find "footprint" c = None → fp comp = Some EmptyString)) ∧
  (find "components" root = None → load_comps root = []) ∧
  (find "nets" root = None → load_nets root = Ok []) ∧
  (∀ fname,
     tag root = "export" →
     find "components" root = None →
     find "nets" root = None →
     load_xml fname (inr root) = Ok ([], [])).
Proof.
  split; [|split; [|split]].
  - intros components l1 c l2 Hfind Hiter Hlast.
    exists (comp_item c).2. split.
    + unfold load_comps. rewrite Hfind, Hiter, fmap_app, fmap_cons.
      destruct (comp_item c) as [k v] eqn:Hc.
      assert (k = attr_get "ref" c) as Hk by (by inversion Hc). rewrite <- Hk.
      apply get_from_items_last.
      rewrite <- list_fmap_compose, Hk. done.
    + unfold comp_item, child_text. simpl. split; by intros ->.
  - unfold load_comps. by intros ->.
  - unfold load_nets. by intros ->.
  - intros fname Htag Hc Hn. unfold load_xml, get_root, load_comps, load_nets.
    rewrite decide_False by (by intros ?). simpl. by rewrite Hc, Hn.
Qed.

(** C10. A tree whose root is [export] and that has, under [nets], a [net]
    with a [node] that lacks [ref] or [pin]: the reading ends in a
    [TypeError], which is not the [KiPlotConfigurationError] of the two
    tests on the file, and so does the run. *)
Theorem bad_node_type_error (gs : GS) (as_warnings : bool)
    (root netlist n node : Element) :
  tag root = "export" →
  find "nets" root = Some netlist →
  n ∈ iter "net" netlist →
  node ∈ iter "node" n →
  attr_get "ref" node = None ∨ attr_get "pin" node = None →
  let fname := sch_no_ext gs +:+ ".xml" in
  load_xml fname (inr root) = Raise TypeError ∧
  (∀ msg, load_xml fname (inr root) ≠ Raise (KiPlotConfigurationError msg)) ∧
  (kicad_ok gs →
   check_pcb_parity gs as_warnings (inr root) = ([], Raise TypeError)).
Proof.
  intros Htag Hnets Hn Hnode Hbad fname.
  assert (load_xml fname (inr root) = Raise TypeError) as Hload.
  { unfold load_xml, get_root, load_nets.
    rewrite decide_False by (by intros ?). simpl. rewrite Hnets.
    erewrite load_net_loop_bad; [done | done |].
    by eapply node_tokens_bad. }
  split; [done|]. split; [by rewrite Hload|].
  intros Hok. subst fname. by rewrite check_pcb_parity_ok, Hload.
Qed.

End reading.

(** ** Two runs *)

Section two_runs.
Context (o1 o2 : PySetOrder).









End two_runs.


(** ** The properties on the sample inputs *)

Lemma check_components_one_side_witness :
  filter (λ x, msg_ref x = Some (Some "R9"))
    (@check_components order_fwd sample_board sample_comps []) =
  (λ _, CompNotInSch "R9") <$>
    filter (λ m, GetReference m = "R9") (get_modules sample_board).
Proof.
  apply (proj1 (@check_components_one_side order_fwd sample_board sample_comps)).
  reflexivity.
Defined.

Lemma property_messages_at_most_one_witness :
  length (filter (λ x, msg_prop x = Some ("R1", Some "MPN"))
            (@check_components order_fwd sample_board sample_comps [])) ≤ 1.
Proof.
  apply (@property_messages_at_most_one order_fwd sample_board sample_comps).
  - apply (bool_decide_unpack _). vm_compute. exact I.
  - intros k c Hin. apply (bool_decide_unpack _).
    apply list_elem_of_In in Hin. simpl in Hin.
    destruct Hin as [[= <- <-]|[[= <- <-]|[]]]; vm_compute; exact I.
Defined.

Lemma check_nets_endpoints_witness :
  filter (λ x, msg_net x = Some (Some "GND"))
    (@check_nets order_fwd sample_board sample_net_nodes []) =
  [NetExtra "GND" ["R9 pin 1"]; NetMissing "GND" ["C1 pin 2"]].
Proof.
  assert (NoDup ((λ item : Z * NETINFO_ITEM, GetNetname item.2) <$>
            filter (λ item, item.1 ≠ 0%Z) (NetsByNetcode sample_board))) as Hnd.
  { apply (bool_decide_unpack _). vm_compute. exact I. }
  assert ((1%Z, mkNet "GND") ∈ NetsByNetcode sample_board) as Hin.
  { right. left. }
  assert (1%Z ≠ 0%Z) as Hn by discriminate.
  assert (PyDict.get sample_net_nodes (Some (GetNetname (mkNet "GND")))
          = Some (list_to_set ["R1 pin 1"; "C1 pin 2"])) as Hget.
  { vm_compute. reflexivity. }
  etransitivity.
  - exact (proj1 (@check_nets_endpoints order_fwd sample_board sample_net_nodes
                    1%Z (mkNet "GND") _ Hnd Hin Hn Hget)).
  - vm_compute. reflexivity.
Defined.

Lemma report_outcome_witness :
  @check_pcb_parity order_fwd sample_misc sample_gs false (inr sample_xml) =
  (LoadBoard ::
     (LogError <$>
        (render <$> @reconcile order_fwd (board sample_gs) sample_comps
                      sample_net_nodes)),
   Exit (@NETLIST_DIFF sample_misc)).
Proof.
  apply (@report_outcome order_fwd sample_misc sample_gs false (inr sample_xml)
           sample_comps sample_net_nodes).
  - split; [reflexivity | left; reflexivity].
  - vm_compute. reflexivity.
  - vm_compute. discriminate.
  - reflexivity.
Defined.

Lemma bad_xml_raises_witness :
  ∃ msg, load_xml (sch_no_ext sample_gs +:+ ".xml") (inr sample_xml_other_root)
         = Raise (KiPlotConfigurationError msg).
Proof.
  apply (@bad_xml_raises order_fwd sample_misc sample_gs false
           (inr sample_xml_other_root)).
  simpl. discriminate.
Defined.

Lemma old_kicad_exits_witness :
  (@check_pcb_parity order_fwd sample_misc sample_gs_ki7 true (inr sample_xml)).2
  = Exit (@MISSING_TOOL sample_misc).
Proof.
  apply (@old_kicad_exits order_fwd sample_misc sample_gs_ki7 true (inr sample_xml)).
  right. split; [reflexivity|]. simpl. lia.
Defined.

Lemma load_xml_lenient_witness :
  ∃ comp,
    PyDict.get (load_comps sample_xml) (Some "C1") = Some comp ∧
    (find "value" (leaf "comp" [("ref", "C1")] None) = None → val comp = Some EmptyString) ∧
    (find "footprint" (leaf "comp" [("ref", "C1")] None) = None → fp comp = Some EmptyString).
Proof.
  eapply (proj1 (load_xml_lenient sample_xml) _ [_] (leaf "comp" [("ref", "C1")] None) []).
  - reflexivity.
  - reflexivity.
  - apply not_elem_of_nil.
Defined.

Lemma bad_node_type_error_witness :
  load_xml (sch_no_ext sample_gs +:+ ".xml") (inr sample_xml_no_pin) = Raise TypeError.
Proof.
  eapply (@bad_node_type_error order_fwd sample_misc sample_gs false
            sample_xml_no_pin _ _ (leaf "node" [("ref", "R1")] None)).
  - reflexivity.
  - reflexivity.
  - left.
  - left.
  - right. reflexivity.
Defined.



(** * Further properties *)

(** ** Dictionaries built in a loop *)

Section from_items_facts.
Context {K V : Type} `{!EqDecision K}.
Implicit Types (l : list (K * V)) (k : K).

(** [d.get(k)] is the value of the last item written under [k]. *)
Lemma get_from_items l k :
  PyDict.get (PyDict.from_items l) k = snd <$> last (filter (λ kv, kv.1 = k) l).
Proof.
  induction l as [|[k' v] l IH] using rev_ind; [done|].
  rewrite from_items_snoc, filter_app, filter_cons, filter_nil. simpl.
  destruct (decide (k' = k)) as [->|Hne].
  - by rewrite get_setitem_eq, last_snoc.
  - by rewrite get_setitem_ne, app_nil_r.
Qed.

(** The keys are the keys written, each at the place of its first item. *)
Lemma keys_from_items l :
  PyDict.keys (PyDict.from_items l) = reverse (remove_dups (reverse l.*1)).
Proof.
  induction l as [|[k v] l IH] using rev_ind; [done|].
  rewrite from_items_snoc, fmap_app, reverse_app. simpl.
  destruct (decide (k ∈ PyDict.keys (PyDict.from_items l))) as [Hin|Hnin].
  - rewrite keys_setitem_in, IH by done.
    rewrite IH, elem_of_reverse, elem_of_remove_dups in Hin.
    by destruct (decide_rel _ _ _).
  - rewrite keys_setitem_notin, IH by done.
    rewrite IH, elem_of_reverse, elem_of_remove_dups in Hnin.
    destruct (decide_rel _ _ _); [done|]. by rewrite reverse_cons.
Qed.

Lemma elem_of_keys_from_items l k :
  k ∈ PyDict.keys (PyDict.from_items l) ↔ k ∈ l.*1.
Proof.
  by rewrite keys_from_items, elem_of_reverse, elem_of_remove_dups,
    elem_of_reverse.
Qed.

Lemma foldl_setitem_NoDup (d : list (K * V)) l :
  NoDup (PyDict.keys d) →
  NoDup (PyDict.keys (foldl (λ d kv, PyDict.setitem kv.1 kv.2 d) d l)).
Proof.
  revert d. induction l as [|[k v] l IH]; intros d Hd; [done|].
  rewrite foldl_cons. apply IH. by apply keys_setitem_NoDup.
Qed.

End from_items_facts.

(** ** What the reading of the file gives *)

Section reading_facts.

Lemma node_token_token_of node :
  node_token node =
  match token_of node with
  | Some t => Ok t
  | None => Raise TypeError
  end.
Proof.
  unfold node_token, token_of.
  by destruct (attr_get "ref" node), (attr_get "pin" node).
Qed.

Lemma token_of_is_Some node : is_Some (token_of node) ↔ node_ok node.
Proof.
  unfold token_of, node_ok.
  destruct (attr_get "ref" node), (attr_get "pin" node); split;
    first [by intros [? [=]] | by intros [[? [=]] [? [=]]]
          | by intros [[? [=]] ?] | by intros [? [? [=]]]
          | by intros; repeat split; eexists ].
Qed.

Lemma node_tokens_Ok nodes :
  Forall node_ok nodes →
  node_tokens nodes = Ok (list_to_set (omap token_of nodes)).
Proof.
  induction 1 as [|node nodes Hnode _ IH]; [done|].
  apply token_of_is_Some in Hnode as [t Ht].
  cbn [node_tokens]. rewrite node_token_token_of, Ht, IH.
  cbn [rbind omap list_omap]. by rewrite Ht.
Qed.

Lemma node_tokens_Ok_inv nodes s :
  node_tokens nodes = Ok s → Forall node_ok nodes.
Proof.
  revert s. induction nodes as [|node nodes IH]; intros s; [done|].
  cbn [node_tokens]. rewrite node_token_token_of.
  destruct (token_of node) as [t|] eqn:Ht; simpl; [|done].
  destruct (node_tokens nodes) as [s'| |] eqn:Hs; simpl; [|done..].
  intros _. constructor; [|by eapply IH].
  apply token_of_is_Some. by eexists.
Qed.

Lemma load_net_loop_Ok nets net_nodes :
  (∀ n, n ∈ nets → Forall node_ok (iter "node" n)) →
  load_net_loop nets net_nodes =
  Ok (foldl (λ d kv, PyDict.setitem kv.1 kv.2 d) net_nodes (net_item <$> nets)).
Proof.
  revert net_nodes. induction nets as [|n nets IH]; intros net_nodes Hok; [done|].
  simpl. rewrite node_tokens_Ok by (apply Hok; left). simpl.
  apply IH. intros n' Hn'. apply Hok. by right.
Qed.

Lemma load_net_loop_Ok_inv nets net_nodes r n :
  load_net_loop nets net_nodes = Ok r → n ∈ nets → Forall node_ok (iter "node" n).
Proof.
  revert net_nodes. induction nets as [|n' nets IH]; intros net_nodes.
  - by intros _ ?%elem_of_nil.
  - simpl. destruct (node_tokens (iter "node" n')) as [s| |] eqn:Hs; simpl;
      [|done..].
    intros Hr [->|Hn]%elem_of_cons.
    + by eapply node_tokens_Ok_inv.
    + by eapply IH.
Qed.

Lemma load_net_loop_cases nets net_nodes :
  (∃ r, load_net_loop nets net_nodes = Ok r) ∨
  load_net_loop nets net_nodes = Raise TypeError.
Proof.
  revert net_nodes. induction nets as [|n nets IH]; intros net_nodes; simpl.
  - left. by eexists.
  - destruct (node_tokens_cases (iter "node" n)) as [[s ->]| ->]; simpl;
      [apply IH | by right].
Qed.

Lemma nodes_ok_net_elements root :
  nodes_ok root ↔ ∀ n, n ∈ net_elements root → Forall node_ok (iter "node" n).
Proof.
  unfold nodes_ok, net_elements. split.
  - intros Hok n Hn. apply Forall_forall. intros node Hnode.
    destruct (find "nets" root) as [netlist|]; [|by apply elem_of_nil in Hn].
    by eapply Hok.
  - intros Hok netlist n node Hfind Hn Hnode. rewrite Hfind in Hok.
    by eapply Forall_forall; [apply Hok|].
Qed.

Lemma load_nets_Ok root :
  nodes_ok root →
  load_nets root = Ok (PyDict.from_items (net_item <$> net_elements root)).
Proof.
  intros Hok. pose proof (proj1 (nodes_ok_net_elements root) Hok) as Hok'.
  clear Hok. unfold load_nets, net_elements in *.
  destruct (find "nets" root) as [netlist|]; [|done].
  by rewrite load_net_loop_Ok.
Qed.

Lemma load_nets_Ok_inv root r : load_nets root = Ok r → nodes_ok root.
Proof.
  intros Hr. apply (proj2 (nodes_ok_net_elements root)). intros n Hn.
  unfold load_nets, net_elements in *.
  destruct (find "nets" root) as [netlist|]; [|by apply elem_of_nil in Hn].
  by eapply load_net_loop_Ok_inv.
Qed.

Lemma load_comps_from_items root :
  load_comps root = PyDict.from_items (comp_item <$> comp_elements root).
Proof. unfold load_comps, comp_elements. by destruct (find _ _). Qed.

Lemma load_xml_export fname root :
  tag root = "export" →
  load_xml fname (inr root) =
  rbind (load_nets root) (λ net_nodes, Ok (load_comps root, net_nodes)).
Proof.
  intros Htag. unfold load_xml, get_root.
  by rewrite decide_False by (by intros ?).
Qed.

(** X1. For a tree whose root is [export], the reading gives the two
    dictionaries exactly when every [node] of every [net] under [nets] has
    both [ref] and [pin]; otherwise it ends in a [TypeError]. It never
    leaves through [exit]. *)
Theorem load_xml_export_outcome (fname : string) (root : Element) :
  tag root = "export" →
  (nodes_ok root ↔ ∃ r, load_xml fname (inr root) = Ok r) ∧
  (nodes_ok root →
     load_xml fname (inr root) =
     Ok (load_comps root, PyDict.from_items (net_item <$> net_elements root))) ∧
  (¬ nodes_ok root → load_xml fname (inr root) = Raise TypeError).
Proof.
  intros Htag. rewrite load_xml_export by done.
  assert (nodes_ok root →
          rbind (load_nets root) (λ net_nodes, Ok (load_comps root, net_nodes)) =
          Ok (load_comps root,
              PyDict.from_items (net_item <$> net_elements root))) as Hok.
  { intros Hok. by rewrite load_nets_Ok. }
  assert ((∃ r, rbind (load_nets root)
                  (λ net_nodes, Ok (load_comps root, net_nodes)) = Ok r) →
          nodes_ok root) as Hinv.
  { intros [r Hr]. destruct (load_nets root) as [nn| |] eqn:Hnn; [|done..].
    by eapply load_nets_Ok_inv. }
  split; [split; [intros H; eexists; by apply Hok | done]|].
  split; [done|]. intros Hbad.
  unfold load_nets in *. destruct (find "nets" root) as [netlist|].
  - destruct (load_net_loop_cases (iter "net" netlist) []) as [[r Hr]| ->];
      [|done].
    destruct Hbad. apply Hinv. rewrite Hr. by eexists.
  - destruct Hbad. apply Hinv. by eexists.
Qed.

Lemma elem_of_net_tokens n t :
  t ∈ net_tokens n ↔
  ∃ node ref pin, node ∈ iter "node" n ∧ attr_get "ref" node = Some ref ∧
                  attr_get "pin" node = Some pin ∧ t = ref +:+ " pin " +:+ pin.
Proof.
  unfold net_tokens. rewrite elem_of_list_to_set, list_elem_of_omap. split.
  - intros (node & Hnode & Ht). unfold token_of in Ht.
    destruct (attr_get "ref" node) as [ref|] eqn:Href; [|done].
    destruct (attr_get "pin" node) as [pin|] eqn:Hpin; [|done].
    exists node, ref, pin. naive_solver.
  - intros (node & ref & pin & Hnode & Href & Hpin & ->).
    exists node. split; [done|]. unfold token_of. by rewrite Href, Hpin.
Qed.

(** X2. What the dictionary of components holds under a reference is what
    the last [comp] with that reference gives, and nothing when no [comp]
    has it; the same for the properties of a [comp], by name. *)
Theorem load_comps_lookup (root : Element) :
  (∀ ref, PyDict.get (load_comps root) ref =
          (λ c, (comp_item c).2) <$>
            last (filter (λ c, attr_get "ref" c = ref) (comp_elements root))) ∧
  (∀ c name, PyDict.get (comp_props c) name =
             attr_get "value" <$>
               last (filter (λ p, attr_get "name" p = name) (iter "property" c))).
Proof.
  split.
  - intros ref. rewrite load_comps_from_items, get_from_items.
    rewrite (filter_fmap (λ kv : pystr * Component, kv.1 = ref)).
    by rewrite fmap_last, <- option_fmap_compose.
  - intros c name. unfold comp_props. rewrite get_from_items.
    rewrite (filter_fmap (λ kv : pystr * pystr, kv.1 = name)).
    by rewrite fmap_last, <- option_fmap_compose.
Qed.

(** X3. When the reading gives the dictionaries, what the dictionary of
    nets holds under a name is the set of the tokens [ref pin pin] of the
    nodes of the last [net] with that name, and nothing when no [net] has
    the name. *)
Theorem load_nets_lookup (fname : string) (root : Element)
    (comps : list (pystr * Component)) (net_nodes : list (pystr * gset string)) :
  tag root = "export" →
  load_xml fname (inr root) = Ok (comps, net_nodes) →
  (∀ name, PyDict.get net_nodes name =
           net_tokens <$>
             last (filter (λ n, attr_get "name" n = name) (net_elements root))) ∧
  (∀ n t, t ∈ net_tokens n ↔
          ∃ node ref pin, node ∈ iter "node" n ∧ attr_get "ref" node = Some ref ∧
                          attr_get "pin" node = Some pin ∧
                          t = ref +:+ " pin " +:+ pin).
Proof.
  intros Htag Hload. split; [|apply elem_of_net_tokens].
  rewrite load_xml_export in Hload by done.
  destruct (load_nets root) as [nn| |] eqn:Hnn; simplify_eq/=.
  rewrite load_nets_Ok in Hnn by (by eapply load_nets_Ok_inv).
  injection Hnn as <-. intros name. rewrite get_from_items.
  rewrite (filter_fmap (λ kv : pystr * gset string, kv.1 = name)).
  by rewrite fmap_last, <- option_fmap_compose.
Qed.

(** X4. The dictionaries that the reading gives have each key once, in the
    order in which the keys first come in the file: the number of nets that
    [check_nets] counts is the number of different names of [net]
    elements. *)
Theorem load_xml_keys (fname : string) (root : Element)
    (comps : list (pystr * Component)) (net_nodes : list (pystr * gset string)) :
  tag root = "export" →
  load_xml fname (inr root) = Ok (comps, net_nodes) →
  let refs := attr_get "ref" <$> comp_elements root in
  let names := attr_get "name" <$> net_elements root in
  PyDict.keys comps = reverse (remove_dups (reverse refs)) ∧
  PyDict.keys net_nodes = reverse (remove_dups (reverse names)) ∧
  NoDup (PyDict.keys comps) ∧ NoDup (PyDict.keys net_nodes) ∧
  (∀ ref c, (ref, c) ∈ comps → NoDup (PyDict.keys (props c))) ∧
  length net_nodes = length (remove_dups names).
Proof.
  intros Htag Hload refs names.
  rewrite load_xml_export in Hload by done.
  destruct (load_nets root) as [nn| |] eqn:Hnn; simplify_eq/=.
  rewrite load_nets_Ok in Hnn by (by eapply load_nets_Ok_inv).
  injection Hnn as <-. rewrite load_comps_from_items.
  assert (PyDict.keys (PyDict.from_items (net_item <$> net_elements root))
          = reverse (remove_dups (reverse names))) as Hkeys.
  { rewrite keys_from_items, <- list_fmap_compose. done. }
  split; [by rewrite keys_from_items, <- list_fmap_compose|].
  split; [done|].
  split; [apply from_items_NoDup|]. split; [apply from_items_NoDup|].
  split.
  - intros ref c Hin%elem_of_from_items.
    apply list_elem_of_fmap in Hin as (e & [= -> ->] & _). simpl.
    apply from_items_NoDup.
  - transitivity (length (PyDict.keys
                   (PyDict.from_items (net_item <$> net_elements root)))).
    { unfold PyDict.keys. by rewrite length_fmap. }
    rewrite Hkeys, length_reverse.
    apply Permutation_length, NoDup_Permutation; [apply NoDup_remove_dups..|].
    intros x. by rewrite !elem_of_remove_dups, elem_of_reverse.
Qed.

End reading_facts.

(** ** The attributes that the reading looks at *)

Section attributes.
Context (f : string → list (string * string) → list (string * string)).

Lemma Element_Forall_ind (P : Element → Prop) :
  (∀ t a x cs, Forall P cs → P (Elem t a x cs)) → ∀ e, P e.
Proof.
  intros Hstep. fix IH 1. intros [t a x cs]. apply Hstep.
  induction cs as [|c cs IHcs]; constructor; [apply IH | apply IHcs].
Qed.

Lemma map_attrib_tag e : tag (map_attrib f e) = tag e.
Proof. by destruct e. Qed.

Lemma map_attrib_text e : text (map_attrib f e) = text e.
Proof. by destruct e. Qed.

Lemma map_attrib_children e :
  children (map_attrib f e) = map_attrib f <$> children e.
Proof. by destruct e. Qed.

Lemma map_attrib_subtree e :
  subtree (map_attrib f e) = map_attrib f <$> subtree e.
Proof.
  induction e as [t a x cs IH] using Element_Forall_ind.
  cbn [map_attrib subtree]. rewrite fmap_cons. f_equal.
  induction IH as [|c cs Hc _ IHcs]; [done|].
  cbn [map flat_map]. by rewrite fmap_app, Hc, IHcs.
Qed.

Lemma filter_tag_map_attrib t (l : list Element) :
  filter (λ c, tag c = t) (map_attrib f <$> l) =
  map_attrib f <$> filter (λ c, tag c = t) l.
Proof.
  rewrite filter_fmap. f_equal. apply list_filter_iff.
  intros c. by rewrite map_attrib_tag.
Qed.

Lemma map_attrib_iter t e :
  iter t (map_attrib f e) = map_attrib f <$> iter t e.
Proof. unfold iter. by rewrite map_attrib_subtree, filter_tag_map_attrib. Qed.

Lemma map_attrib_find t e :
  find t (map_attrib f e) = map_attrib f <$> find t e.
Proof.
  unfold find. rewrite map_attrib_children, filter_tag_map_attrib.
  by destruct (filter _ (children e)).
Qed.

Hypothesis Hkeeps : keeps_read_attrs f.

Lemma map_attrib_attr_get name e :
  name ∈ ["ref"; "name"; "value"; "pin"] →
  attr_get name (map_attrib f e) = attr_get name e.
Proof. intros Hname. destruct e. by apply Hkeeps. Qed.

Lemma map_attrib_comp_item c : comp_item (map_attrib f c) = comp_item c.
Proof.
  unfold comp_item, child_text, comp_props.
  rewrite map_attrib_attr_get, !map_attrib_find, map_attrib_iter by set_solver.
  f_equal. f_equal.
  - destruct (find "value" c); [apply map_attrib_text | done].
  - destruct (find "footprint" c); [apply map_attrib_text | done].
  - f_equal. rewrite <- list_fmap_compose. apply list_fmap_ext.
    intros i p _. simpl. by rewrite !map_attrib_attr_get by set_solver.
Qed.

Lemma map_attrib_load_comps root :
  load_comps (map_attrib f root) = load_comps root.
Proof.
  unfold load_comps. rewrite map_attrib_find.
  destruct (find "components" root) as [components|]; [|done]. simpl.
  rewrite map_attrib_iter, <- list_fmap_compose. f_equal.
  apply list_fmap_ext. intros i c _. apply map_attrib_comp_item.
Qed.

Lemma map_attrib_node_tokens nodes :
  node_tokens (map_attrib f <$> nodes) = node_tokens nodes.
Proof.
  induction nodes as [|node nodes IH]; [done|].
  rewrite fmap_cons. cbn [node_tokens]. rewrite IH. unfold node_token.
  by rewrite !map_attrib_attr_get by set_solver.
Qed.

Lemma map_attrib_load_net_loop nets net_nodes :
  load_net_loop (map_attrib f <$> nets) net_nodes = load_net_loop nets net_nodes.
Proof.
  revert net_nodes. induction nets as [|n nets IH]; intros net_nodes; [done|].
  rewrite fmap_cons. cbn [load_net_loop].
  rewrite map_attrib_iter, map_attrib_node_tokens.
  rewrite map_attrib_attr_get by set_solver.
  destruct (node_tokens (iter "node" n)); simpl; [apply IH | done..].
Qed.

Lemma map_attrib_load_nets root :
  load_nets (map_attrib f root) = load_nets root.
Proof.
  unfold load_nets. rewrite map_attrib_find.
  destruct (find "nets" root) as [netlist|]; [|done]. simpl.
  by rewrite map_attrib_iter, map_attrib_load_net_loop.
Qed.

(** X5. The reading looks at no attribute but [ref], [name], [value] and
    [pin]: a change of the attributes of the elements of the tree that
    leaves these four as they are leaves the result as it is. So it is for
    the [code] of a [net]. *)
Theorem load_xml_reads_four_attributes (fname : string) (root : Element) :
  load_xml fname (inr (map_attrib f root)) = load_xml fname (inr root).
Proof.
  unfold load_xml, get_root. rewrite map_attrib_tag.
  case_decide; [done|]. simpl.
  by rewrite map_attrib_load_comps, map_attrib_load_nets.
Qed.

End attributes.

Lemma drop_code_keeps : keeps_read_attrs drop_code.
Proof.
  intros t a name Hname. unfold drop_code.
  assert (name ≠ "code") as Hne.
  { intros ->. set_solver. }
  induction a as [|[k v] a IH]; [done|].
  rewrite filter_cons. simpl. destruct (decide (name = k)) as [->|Hk].
  - rewrite decide_True by done. simpl. by rewrite decide_True.
  - case_decide; simpl; [by rewrite decide_False|done].
Qed.

(** ** When nothing is reported *)

Lemma and_iff_both (P P' Q Q' : Prop) : (P ↔ P') → (Q ↔ Q') → (P ∧ Q ↔ P' ∧ Q').
Proof. tauto. Qed.

Section empty_lists.
Context {A B : Type}.

Lemma fmap_nil_iff (f : A → B) (l : list A) : f <$> l = [] ↔ l = [].
Proof. split; [apply fmap_nil_inv | by intros ->]. Qed.

Lemma bind_nil_iff (f : A → list B) (l : list A) :
  l ≫= f = [] ↔ ∀ x, x ∈ l → f x = [].
Proof.
  induction l as [|x l IH].
  - split; [by intros _ x ?%elem_of_nil | done].
  - rewrite bind_cons, app_nil, IH. split.
    + intros [Hx Hl] y [->|Hy]%elem_of_cons; auto.
    + intros Hl. split; [apply Hl; left | intros y Hy; apply Hl; by right].
Qed.

Lemma filter_nil_iff (P : A → Prop) `{!∀ x, Decision (P x)} (l : list A) :
  filter P l = [] ↔ ∀ x, x ∈ l → ¬ P x.
Proof.
  split; [|apply filter_none].
  intros Hnil x Hx HP. by eapply filter_nil_not_elem_of.
Qed.

Lemma decide_singleton_nil (P : Prop) `{!Decision P} (x : A) :
  (if decide P then [x] else []) = [] ↔ ¬ P.
Proof. case_decide; split; done. Qed.

End empty_lists.

Section silent.
Context `{!PySetOrder}.

Lemma set_iter_nil `{Countable C} (s : gset C) : set_iter s = [] ↔ s = ∅.
Proof.
  split.
  - intros Hs. apply leibniz_equiv, elements_empty_iff.
    apply Permutation_nil_r. by rewrite <- Hs, set_iter_perm.
  - intros ->. apply Permutation_nil_r.
    by rewrite set_iter_perm, elements_empty.
Qed.

Lemma prop_msgs_nil ref pcb_props p v :
  prop_msgs ref pcb_props (p, v) = [] ↔
  is_Some v ∧ pcb_props_get pcb_props p = v.
Proof.
  unfold prop_msgs. simpl. destruct (pcb_props_get pcb_props p) as [v_pcb|].
  - destruct (decide (Some v_pcb ≠ v)) as [Hv|Hv].
    + split; [done|]. intros [_ ?]. by destruct Hv.
    + split; [|done]. intros _. apply dec_stable in Hv. subst v.
      split; [by eexists | done].
  - split; [done|]. intros [[? ->] [=]].
Qed.

Lemma pcb_only_nil (sch_props : list (pystr * pystr))
    (pcb_props : list (string * string)) :
  list_to_set (Some <$> PyDict.keys pcb_props)
    ∖ found_props_of pcb_props sch_props =@{gset pystr} ∅ ↔
  ∀ k, k ∈ PyDict.keys pcb_props → Some k ∈ PyDict.keys sch_props.
Proof.
  unfold found_props_of. split.
  - intros Hempty k Hk.
    destruct (decide (Some k ∈ PyDict.keys sch_props)) as [|Hnin]; [done|].
    assert (Some k ∈ (∅ : gset pystr)) as Hin; [|set_solver].
    rewrite <- Hempty, elem_of_difference, !elem_of_list_to_set.
    split; [by apply list_elem_of_fmap_2|].
    by intros [_ ?]%list_elem_of_filter.
  - intros Hall. apply set_eq. intros p.
    rewrite elem_of_difference, !elem_of_list_to_set, list_elem_of_filter.
    split; [|set_solver]. intros [(k & -> & Hk)%list_elem_of_fmap Hnf].
    destruct Hnf. split; [|by apply Hall].
    simpl. by apply get_is_Some.
Qed.

Lemma module_msgs_nil comps m :
  module_msgs comps m = [] ↔ module_agrees comps m.
Proof.
  unfold module_msgs, module_agrees.
  destruct (PyDict.get comps (Some (GetReference m))) as [sch_data|].
  - rewrite !app_nil, fmap_nil_iff, set_iter_nil, pcb_only_nil, bind_nil_iff.
    rewrite !decide_singleton_nil. split.
    + intros (Hfp & Hval & Hprops & Hpcb). exists sch_data.
      split; [done|]. split; [by apply dec_stable in Hfp|].
      split; [by apply dec_stable in Hval|].
      split; [|done]. intros p v Hin.
      by apply (prop_msgs_nil (GetReference m)), Hprops.
    + intros (sch & [= <-] & Hfp & Hval & Hprops & Hpcb).
      split; [by intros ?|]. split; [by intros ?|].
      split; [|done]. intros [p v] Hin. by apply prop_msgs_nil, Hprops.
  - split; [done|]. by intros (? & [=] & _).
Qed.

(** X6. [check_components] reports nothing exactly when every footprint of
    the board is in the schematic with the same footprint name, the same
    value and the same properties (every property of the schematic on the
    board with its value, every property of the board in the schematic),
    and every reference of the schematic is the one of a footprint. *)
Theorem check_components_silent_iff (b : BOARD) (comps : list (pystr * Component)) :
  check_components b comps [] = [] ↔ components_agree b comps.
Proof.
  rewrite check_components_eq. simpl.
  rewrite app_nil, bind_nil_iff, fmap_nil_iff, set_iter_nil.
  unfold components_agree, found_comps_of.
  apply and_iff_both; [split; intros Hm m Hin; by apply module_msgs_nil, Hm|].
  split.
  - intros Hempty k Hk.
    destruct (decide (k ∈ (λ m, Some (GetReference m)) <$> get_modules b))
      as [(m & -> & Hm)%list_elem_of_fmap|Hnin]; [by exists m|].
    assert (k ∈ (∅ : gset pystr)) as Hin; [|set_solver].
    rewrite <- Hempty, elem_of_difference, !elem_of_list_to_set. done.
  - intros Hall. apply set_eq. intros k.
    rewrite elem_of_difference, !elem_of_list_to_set.
    split; [|set_solver]. intros [(m & Hm & ->)%Hall Hnin].
    destruct Hnin. by apply (list_elem_of_fmap_2 (λ m, Some (GetReference m))).
Qed.

Lemma endpoint_msgs_nil net_name (pcb_nodes sch_nodes : gset string) :
  endpoint_msgs net_name pcb_nodes sch_nodes = [] ↔ sch_nodes = pcb_nodes.
Proof.
  unfold endpoint_msgs. rewrite app_nil. split.
  - rewrite !decide_singleton_nil. intros [Hps Hsp].
    apply dec_stable in Hps, Hsp. apply set_eq. intros t. split; intros Ht.
    + destruct (decide (t ∈ pcb_nodes)); [done|]. set_solver.
    + destruct (decide (t ∈ sch_nodes)); [done|]. set_solver.
  - intros ->. rewrite !decide_False; [done|..];
      intros Hne; apply Hne; set_solver.
Qed.

Lemma net_msgs_nil b net_nodes item :
  net_msgs b net_nodes item = [] ↔
  (item.1 ≠ 0%Z →
   PyDict.get net_nodes (Some (GetNetname item.2)) = Some (pcb_nodes_of b item.1)).
Proof.
  unfold net_msgs. case_decide as Hz; [done|].
  destruct (PyDict.get net_nodes _) as [sch_nodes|].
  - rewrite endpoint_msgs_nil. split; [by intros -> | intros Hs].
    by injection (Hs Hz).
  - split; [done|]. intros Hs. by specialize (Hs Hz).
Qed.

Lemma elem_of_board_nets b item :
  item ∈ board_nets b ↔ item ∈ NetsByNetcode b ∧ item.1 ≠ 0%Z.
Proof. unfold board_nets. rewrite list_elem_of_filter. tauto. Qed.

Lemma elem_of_board_net_names b net_name :
  net_name ∈ board_net_names b ↔
  ∃ item, item ∈ NetsByNetcode b ∧ item.1 ≠ 0%Z ∧ GetNetname item.2 = net_name.
Proof.
  unfold board_net_names. rewrite list_elem_of_fmap. split.
  - intros (item & -> & [? ?]%elem_of_board_nets). by exists item.
  - intros (item & ? & ? & <-). exists item. split; [done|].
    by apply elem_of_board_nets.
Qed.

(** For a name of the schematic, to be in [pcb_net_names] is to be the
    name of a net of the board. *)
Lemma pcb_net_names_board b net_nodes (name : pystr) :
  name ∈ PyDict.keys net_nodes →
  name ∈ pcb_net_names_of (NetsByNetcode b) net_nodes ↔
  name ∈ Some <$> board_net_names b.
Proof.
  intros Hkey. rewrite elem_of_pcb_net_names, list_elem_of_fmap. split.
  - intros (item & Hin & -> & Hz & _). exists (GetNetname item.2).
    split; [done|]. apply elem_of_board_net_names. by exists item.
  - intros (net_name & -> & (item & Hin & Hz & <-)%elem_of_board_net_names).
    exists item. repeat split; [done..|]. by apply get_is_Some.
Qed.

(** X7. [check_nets] reports nothing exactly when the count of the board
    less one is the count of the schematic, every net of the board but the
    net 0 is in the schematic under its name with the same set of
    endpoints, and every name of the schematic is the name of such a net. *)
Theorem check_nets_silent_iff (b : BOARD) (net_nodes : list (pystr * gset string)) :
  check_nets b net_nodes [] = [] ↔ nets_agree b net_nodes.
Proof.
  rewrite check_nets_eq. simpl.
  rewrite !app_nil, bind_nil_iff, fmap_nil_iff, filter_nil_iff.
  unfold nets_agree, count_msgs.
  rewrite decide_singleton_nil. apply and_iff_both.
  { split; [apply dec_stable | intros Heq Hne; by apply Hne]. }
  apply and_iff_both.
  - split.
    + intros Hall item [Hin Hz]%elem_of_board_nets.
      by apply (proj1 (net_msgs_nil b net_nodes item)); [apply Hall|].
    + intros Hall item Hin. apply net_msgs_nil. intros Hz.
      apply Hall. by apply elem_of_board_nets.
  - split.
    + intros Hall name Hname.
      apply (proj1 (pcb_net_names_board b net_nodes name Hname)).
      by apply dec_stable, Hall.
    + intros Hall name Hname Hnin. apply Hnin.
      apply (proj2 (pcb_net_names_board b net_nodes name Hname)).
      by apply Hall.
Qed.

End silent.

(** ** The outcomes of a run *)

Section outcomes.
Context `{!PySetOrder} `{!Misc}.

Lemma kicad_ok_or_old gs :
  kicad_ok gs ∨
  (ki5 gs = true ∨ (ki7 gs = true ∧ (kicad_version_n gs < KICAD_VERSION_7_0_1)%Z)).
Proof.
  unfold kicad_ok. destruct (ki5 gs); [by right; left|].
  destruct (ki7 gs); [|left; by split; [|left]].
  destruct (decide (kicad_version_n gs < KICAD_VERSION_7_0_1)%Z).
  - right. by right.
  - left. split; [done|]. right. lia.
Qed.

Lemma load_xml_cases fname parsed :
  (∃ r, load_xml fname parsed = Ok r) ∨
  load_xml fname parsed = Raise TypeError ∨
  (∃ msg, load_xml fname parsed = Raise (KiPlotConfigurationError msg)).
Proof.
  unfold load_xml, get_root. destruct parsed as [e|root].
  - right. right. by eexists.
  - case_decide; simpl; [right; right; by eexists|].
    unfold load_nets. destruct (find "nets" root) as [netlist|]; simpl.
    + destruct (load_net_loop_cases (iter "net" netlist) []) as [[r ->]| ->];
        simpl; [left; by eexists | right; by left].
    + left. by eexists.
Qed.

Lemma report_cases as_warnings errors :
  (errors = [] ∧ report as_warnings errors = ([], Ok tt)) ∨
  (errors ≠ [] ∧ as_warnings = true ∧
   report as_warnings errors =
     (LogWarning <$> ((λ e, W_PARITY +:+ e) <$> errors), Ok tt)) ∨
  (errors ≠ [] ∧ as_warnings = false ∧
   report as_warnings errors = (LogError <$> errors, Exit NETLIST_DIFF)).
Proof.
  unfold report. case_decide as He.
  - destruct as_warnings; [right; left | right; right]; done.
  - by left.
Qed.

(** X8. With a version of KiCad that passes, [as_warnings] changes the run
    in this only: each error line is a warning line, with [W_PARITY] in
    front, and the run returns where it would have left through [exit]. *)
Theorem as_warnings_demotes (gs : GS) (parsed : string + Element) :
  kicad_ok gs →
  let run_e := check_pcb_parity gs false parsed in
  let run_w := check_pcb_parity gs true parsed in
  run_w.1 = demote <$> run_e.1 ∧
  run_w.2 = match run_e.2 with Exit _ => Ok tt | r => r end.
Proof.
  intros Hok. simpl. rewrite !check_pcb_parity_ok by done.
  destruct (load_xml_cases (sch_no_ext gs +:+ ".xml") parsed)
    as [[[comps net_nodes] ->]|[->|[msg ->]]]; [|done..]. simpl.
  set (errors := render <$> reconcile (board gs) comps net_nodes).
  unfold report. case_decide; [|done]. simpl. split; [|done].
  f_equal. rewrite <- !list_fmap_compose. done.
Qed.

(** X9. A run ends in one of five ways: it returns, it leaves through
    [exit] with [MISSING_TOOL] or [NETLIST_DIFF], or it raises a
    [TypeError] or a [KiPlotConfigurationError]. Without [as_warnings], a
    run that returns has logged nothing; a warning line is logged only with
    [as_warnings], in a run that returns; and the board is loaded only with
    a version of KiCad that passes and a file that is read. *)
Theorem check_pcb_parity_outcomes (gs : GS) (as_warnings : bool)
    (parsed : string + Element) :
  let run := check_pcb_parity gs as_warnings parsed in
  (run.2 = Ok tt ∨ run.2 = Exit MISSING_TOOL ∨ run.2 = Exit NETLIST_DIFF ∨
   run.2 = Raise TypeError ∨ ∃ msg, run.2 = Raise (KiPlotConfigurationError msg)) ∧
  (as_warnings = false → run.2 = Ok tt → run.1 = [LoadBoard]) ∧
  (∀ msg, LogWarning msg ∈ run.1 → as_warnings = true ∧ run.2 = Ok tt) ∧
  (LoadBoard ∈ run.1 →
   kicad_ok gs ∧ ∃ r, load_xml (sch_no_ext gs +:+ ".xml") parsed = Ok r).
Proof.
  simpl. destruct (kicad_ok_or_old gs) as [Hok|Hold].
  - rewrite check_pcb_parity_ok by done.
    destruct (load_xml_cases (sch_no_ext gs +:+ ".xml") parsed)
      as [[[comps net_nodes] ->]|[->|[msg ->]]]; simpl.
    + destruct (report_cases as_warnings
                  (render <$> reconcile (board gs) comps net_nodes))
        as [[_ ->]|[(_ & -> & ->)|(_ & -> & ->)]]; simpl.
      * split; [by left|]. split; [done|]. split; [|by eauto].
        by intros msg ?%list_elem_of_singleton.
      * split; [by left|]. split; [done|]. split; [done|by eauto].
      * split; [by right; right; left|]. split; [done|]. split; [|by eauto].
        intros msg [?|Hin]%elem_of_cons; [done|].
        by apply list_elem_of_fmap in Hin as (? & ? & _).
    + split; [by right; right; right; left|]. split; [done|].
      split; [by intros msg ?%elem_of_nil | by intros ?%elem_of_nil].
    + split; [right; right; right; right; by eexists|]. split; [done|].
      split; [by intros ? ?%elem_of_nil | by intros ?%elem_of_nil].
  - destruct (check_pcb_parity_old gs as_warnings parsed Hold) as [msg ->].
    simpl. split; [by right; left|]. split; [done|].
    split; [by intros ? ?%list_elem_of_singleton
           | by intros ?%list_elem_of_singleton].
Qed.

(** X10. [check_components] and [check_nets] only append to [errors]: what
    the list held stays in front, and what is appended is what would be
    appended to an empty list. A run appends the messages of the components
    first and the messages of the nets after them. *)
Theorem errors_append_only (b : BOARD) (comps : list (pystr * Component))
    (net_nodes : list (pystr * gset string)) (errors : list Msg) :
  check_components b comps errors = errors ++ check_components b comps [] ∧
  check_nets b net_nodes errors = errors ++ check_nets b net_nodes [] ∧
  reconcile b comps net_nodes =
    check_components b comps [] ++ check_nets b net_nodes [].
Proof.
  split; [|split].
  - by rewrite check_components_eq, (check_components_eq _ _ []).
  - by rewrite check_nets_eq, (check_nets_eq _ _ []).
  - unfold reconcile. by rewrite check_nets_eq, (check_nets_eq _ _ []).
Qed.

End outcomes.

(** ** What each message says *)

Lemma filter_ext_in {A} (P Q : A → Prop) `{!∀ x, Decision (P x)}
    `{!∀ x, Decision (Q x)} (l : list A) :
  (∀ x, x ∈ l → P x ↔ Q x) → filter P l = filter Q l.
Proof.
  induction l as [|x l IH]; intros Hl; [done|].
  rewrite !filter_cons, IH by (intros y Hy; apply Hl; by right).
  destruct (decide (P x)) as [HP|HP], (decide (Q x)) as [HQ|HQ]; try done.
  - destruct HQ. by apply (Hl x); [left|].
  - destruct HP. by apply (Hl x); [left|].
Qed.

Lemma omap_bind {A B C} (f : B → option C) (g : A → list B) (l : list A) :
  omap f (l ≫= g) = l ≫= (λ x, omap f (g x)).
Proof.
  induction l as [|x l IH]; [done|].
  by rewrite !bind_cons, omap_app, IH.
Qed.

Section messages.
Context `{!PySetOrder}.

Lemma elem_of_check_components b comps x :
  x ∈ check_components b comps [] ↔
  (∃ m, m ∈ get_modules b ∧ x ∈ module_msgs comps m) ∨
  (∃ k, x = CompNotInPCB k ∧ k ∈ PyDict.keys comps ∧
        ∀ m, m ∈ get_modules b → Some (GetReference m) ≠ k).
Proof.
  rewrite check_components_eq. simpl.
  rewrite elem_of_app, list_elem_of_bind, list_elem_of_fmap.
  unfold found_comps_of. split.
  - intros [(m & ? & ?)|(k & -> & Hk)]; [left; by exists m | right].
    exists k. split; [done|].
    apply elem_of_set_iter, elem_of_difference in Hk as [Hk Hnf].
    rewrite elem_of_list_to_set in Hk, Hnf. split; [done|].
    intros m Hm <-. apply Hnf.
    by apply (list_elem_of_fmap_2 (λ m, Some (GetReference m))).
  - intros [(m & ? & ?)|(k & -> & Hk & Hnm)]; [left; by exists m | right].
    exists k. split; [done|].
    apply elem_of_set_iter, elem_of_difference.
    rewrite !elem_of_list_to_set. split; [done|].
    intros (m & -> & Hm)%list_elem_of_fmap. by apply (Hnm m).
Qed.

Lemma elem_of_prop_msgs ref pcb_props p v x :
  x ∈ prop_msgs ref pcb_props (p, v) ↔
  (pcb_props_get pcb_props p = None ∧ x = SchPropNotInPCB ref p) ∨
  (∃ v_pcb, pcb_props_get pcb_props p = Some v_pcb ∧ Some v_pcb ≠ v ∧
            x = PropertyMismatch ref p v_pcb v).
Proof.
  unfold prop_msgs. simpl. destruct (pcb_props_get pcb_props p) as [v_pcb|].
  - case_decide as Hv.
    + rewrite list_elem_of_singleton. naive_solver.
    + split; [by intros ?%elem_of_nil|]. intros [[[=] _]|(? & [= <-] & ? & _)].
      done.
  - rewrite list_elem_of_singleton. naive_solver.
Qed.

Lemma elem_of_pcb_only ref (sch_props : list (pystr * pystr))
    (pcb_props : list (string * string)) x :
  x ∈ PCBPropNotInSch ref <$>
        set_iter (list_to_set (Some <$> PyDict.keys pcb_props)
                    ∖ found_props_of pcb_props sch_props) ↔
  ∃ k, x = PCBPropNotInSch ref (Some k) ∧ k ∈ PyDict.keys pcb_props ∧
       Some k ∉ PyDict.keys sch_props.
Proof.
  rewrite list_elem_of_fmap. unfold found_props_of. split.
  - intros (p & -> & Hp).
    apply elem_of_set_iter, elem_of_difference in Hp as [Hp Hnf].
    rewrite elem_of_list_to_set in Hp, Hnf.
    apply list_elem_of_fmap in Hp as (k & -> & Hk). exists k.
    split; [done|]. split; [done|]. intros Hsch. apply Hnf.
    apply list_elem_of_filter. split; [|done]. simpl. by apply get_is_Some.
  - intros (k & -> & Hk & Hsch). exists (Some k). split; [done|].
    apply elem_of_set_iter, elem_of_difference. rewrite !elem_of_list_to_set.
    split; [by apply list_elem_of_fmap_2|].
    by intros [_ ?]%list_elem_of_filter.
Qed.

Lemma elem_of_module_msgs comps m x :
  x ∈ module_msgs comps m ↔
  match PyDict.get comps (Some (GetReference m)) with
  | None => x = CompNotInSch (GetReference m)
  | Some sch_data =>
      (fp sch_data ≠ Some (GetFPIDAsString m) ∧
       x = FootprintMismatch (GetReference m) (GetFPIDAsString m) (fp sch_data)) ∨
      (val sch_data ≠ Some (GetValue m) ∧
       x = ValueMismatch (GetReference m) (GetValue m) (val sch_data)) ∨
      (∃ p v, (p, v) ∈ props sch_data ∧
              x ∈ prop_msgs (GetReference m) (GetProperties m) (p, v)) ∨
      (∃ k, x = PCBPropNotInSch (GetReference m) (Some k) ∧
            k ∈ PyDict.keys (GetProperties m) ∧
            Some k ∉ PyDict.keys (props sch_data))
  end.
Proof.
  unfold module_msgs.
  destruct (PyDict.get comps (Some (GetReference m))) as [sch_data|];
    [|apply list_elem_of_singleton].
  rewrite !elem_of_app, elem_of_pcb_only, list_elem_of_bind.
  repeat apply or_iff_compat_l || apply or_iff_compat_r || f_equiv.
  - case_decide; [rewrite list_elem_of_singleton | rewrite elem_of_nil];
      naive_solver.
  - case_decide; [rewrite list_elem_of_singleton | rewrite elem_of_nil];
      naive_solver.
  - split; [intros ([p v] & ? & ?) | intros (p & v & ? & ?)]; eauto.
Qed.

(** X11. The two messages on the presence of a component say what is so:
    "found in PCB, but not in schematic" is there for a reference exactly
    when a footprint of the board has it and the schematic has not, and
    "found in schematic, but not in PCB" exactly when the schematic has
    it and no footprint of the board has. *)
Theorem component_presence_messages (b : BOARD) (comps : list (pystr * Component)) :
  let out := check_components b comps [] in
  (∀ ref, CompNotInSch ref ∈ out ↔
     (∃ m, m ∈ get_modules b ∧ GetReference m = ref) ∧
     PyDict.get comps (Some ref) = None) ∧
  (∀ ref, CompNotInPCB ref ∈ out ↔
     ref ∈ PyDict.keys comps ∧
     ∀ m, m ∈ get_modules b → Some (GetReference m) ≠ ref).
Proof.
  simpl. split; intros ref; rewrite elem_of_check_components.
  - split.
    + intros [(m & Hm & Hx)|(k & [=] & _)].
      apply elem_of_module_msgs in Hx.
      destruct (PyDict.get comps (Some (GetReference m))) eqn:Hget.
      * destruct Hx as [[_ [=]]|[[_ [=]]|[(p & v & _ & Hx)|(? & [=] & _)]]].
        apply elem_of_prop_msgs in Hx as [[_ [=]]|(? & _ & _ & [=])].
      * injection Hx as ->. split; [by exists m | done].
    + intros [(m & Hm & <-) Hget]. left. exists m. split; [done|].
      apply elem_of_module_msgs. by rewrite Hget.
  - split.
    + intros [(m & Hm & Hx)|(k & [= <-] & ? & ?)]; [|done].
      apply elem_of_module_msgs in Hx.
      destruct (PyDict.get comps (Some (GetReference m))); [|done].
      destruct Hx as [[_ [=]]|[[_ [=]]|[(p & v & _ & Hx)|(? & [=] & _)]]].
      apply elem_of_prop_msgs in Hx as [[_ [=]]|(? & _ & _ & [=])].
    + intros [Hk Hnm]. right. by exists ref.
Qed.

(** X12. The messages of footprint and of value mismatch say what is so:
    one is there exactly when a footprint of the board with that reference
    and that footprint name (or value) is in the schematic with the other
    one that the message shows. *)
Theorem field_mismatch_messages (b : BOARD) (comps : list (pystr * Component)) :
  let out := check_components b comps [] in
  (∀ ref pcb_fp sch_fp, FootprintMismatch ref pcb_fp sch_fp ∈ out ↔
     ∃ m sch_data, m ∈ get_modules b ∧ GetReference m = ref ∧
       GetFPIDAsString m = pcb_fp ∧
       PyDict.get comps (Some ref) = Some sch_data ∧
       fp sch_data = sch_fp ∧ sch_fp ≠ Some pcb_fp) ∧
  (∀ ref pcb_val sch_val, ValueMismatch ref pcb_val sch_val ∈ out ↔
     ∃ m sch_data, m ∈ get_modules b ∧ GetReference m = ref ∧
       GetValue m = pcb_val ∧
       PyDict.get comps (Some ref) = Some sch_data ∧
       val sch_data = sch_val ∧ sch_val ≠ Some pcb_val).
Proof.
  simpl. split; intros ref a s; rewrite elem_of_check_components.
  - split.
    + intros [(m & Hm & Hx)|(k & [=] & _)].
      apply elem_of_module_msgs in Hx.
      destruct (PyDict.get comps (Some (GetReference m))) as [sch|] eqn:Hget;
        [|done].
      destruct Hx as [[? [= -> -> ->]]|[[_ [=]]|[(p & v & _ & Hx)|(? & [=] & _)]]].
      * by exists m, sch.
      * apply elem_of_prop_msgs in Hx as [[_ [=]]|(? & _ & _ & [=])].
    + intros (m & sch & Hm & <- & <- & Hget & <- & Hne). left.
      exists m. split; [done|]. apply elem_of_module_msgs. rewrite Hget.
      by left.
  - split.
    + intros [(m & Hm & Hx)|(k & [=] & _)].
      apply elem_of_module_msgs in Hx.
      destruct (PyDict.get comps (Some (GetReference m))) as [sch|] eqn:Hget;
        [|done].
      destruct Hx as [[_ [=]]|[[? [= -> -> ->]]|[(p & v & _ & Hx)|(? & [=] & _)]]].
      * by exists m, sch.
      * apply elem_of_prop_msgs in Hx as [[_ [=]]|(? & _ & _ & [=])].
    + intros (m & sch & Hm & <- & <- & Hget & <- & Hne). left.
      exists m. split; [done|]. apply elem_of_module_msgs. rewrite Hget.
      right. by left.
Qed.

(** X13. The three messages on a property say what is so, for a footprint
    of the board that the schematic has: "schematic property not in PCB"
    when the schematic has the property and the board has not; "property
    mismatch" when both have it with the two values shown, which differ;
    "PCB property not in schematic" when the board has it and the
    schematic has not. *)
Theorem property_messages (b : BOARD) (comps : list (pystr * Component)) :
  let out := check_components b comps [] in
  (∀ ref p, SchPropNotInPCB ref p ∈ out ↔
     ∃ m sch_data v, m ∈ get_modules b ∧ GetReference m = ref ∧
       PyDict.get comps (Some ref) = Some sch_data ∧
       (p, v) ∈ props sch_data ∧ pcb_props_get (GetProperties m) p = None) ∧
  (∀ ref p v_pcb v, PropertyMismatch ref p v_pcb v ∈ out ↔
     ∃ m sch_data, m ∈ get_modules b ∧ GetReference m = ref ∧
       PyDict.get comps (Some ref) = Some sch_data ∧
       (p, v) ∈ props sch_data ∧
       pcb_props_get (GetProperties m) p = Some v_pcb ∧ Some v_pcb ≠ v) ∧
  (∀ ref p, PCBPropNotInSch ref p ∈ out ↔
     ∃ m sch_data k, m ∈ get_modules b ∧ GetReference m = ref ∧
       PyDict.get comps (Some ref) = Some sch_data ∧ p = Some k ∧
       k ∈ PyDict.keys (GetProperties m) ∧ p ∉ PyDict.keys (props sch_data)).
Proof.
  simpl. split; [|split].
  - intros ref p. rewrite elem_of_check_components. split.
    + intros [(m & Hm & Hx)|(k & [=] & _)].
      apply elem_of_module_msgs in Hx.
      destruct (PyDict.get comps (Some (GetReference m))) as [sch|] eqn:Hget;
        [|done].
      destruct Hx as [[_ [=]]|[[_ [=]]|[(p' & v & Hin & Hx)|(? & [=] & _)]]].
      apply elem_of_prop_msgs in Hx as [[Hnone [= -> ->]]|(? & _ & _ & [=])].
      by exists m, sch, v.
    + intros (m & sch & v & Hm & <- & Hget & Hin & Hnone). left.
      exists m. split; [done|]. apply elem_of_module_msgs. rewrite Hget.
      right. right. left. exists p, v. split; [done|].
      apply elem_of_prop_msgs. by left.
  - intros ref p v_pcb v. rewrite elem_of_check_components. split.
    + intros [(m & Hm & Hx)|(k & [=] & _)].
      apply elem_of_module_msgs in Hx.
      destruct (PyDict.get comps (Some (GetReference m))) as [sch|] eqn:Hget;
        [|done].
      destruct Hx as [[_ [=]]|[[_ [=]]|[(p' & v' & Hin & Hx)|(? & [=] & _)]]].
      apply elem_of_prop_msgs in Hx
        as [[_ [=]]|(a & Hsome & Hne & [= -> -> -> ->])].
      by exists m, sch.
    + intros (m & sch & Hm & <- & Hget & Hin & Hsome & Hne). left.
      exists m. split; [done|]. apply elem_of_module_msgs. rewrite Hget.
      right. right. left. exists p, v. split; [done|].
      apply elem_of_prop_msgs. right. by exists v_pcb.
  - intros ref p. rewrite elem_of_check_components. split.
    + intros [(m & Hm & Hx)|(k & [=] & _)].
      apply elem_of_module_msgs in Hx.
      destruct (PyDict.get comps (Some (GetReference m))) as [sch|] eqn:Hget;
        [|done].
      destruct Hx as [[_ [=]]|[[_ [=]]|[(p' & v & Hin & Hx)|(k & [= -> ->] & ? & ?)]]].
      * apply elem_of_prop_msgs in Hx as [[_ [=]]|(? & _ & _ & [=])].
      * by exists m, sch, k.
    + intros (m & sch & k & Hm & <- & Hget & -> & Hk & Hnin). left.
      exists m. split; [done|]. apply elem_of_module_msgs. rewrite Hget.
      right. right. right. by exists k.
Qed.

End messages.

Section net_messages.
Context `{!PySetOrder}.

Lemma elem_of_check_nets b net_nodes x :
  x ∈ check_nets b net_nodes [] ↔
  x ∈ count_msgs b net_nodes ∨
  (∃ item, item ∈ NetsByNetcode b ∧ x ∈ net_msgs b net_nodes item) ∨
  (∃ name, x = NetNotInPCB name ∧ name ∈ PyDict.keys net_nodes ∧
           name ∉ pcb_net_names_of (NetsByNetcode b) net_nodes).
Proof.
  rewrite check_nets_eq. simpl.
  rewrite !elem_of_app, list_elem_of_bind, list_elem_of_fmap.
  split.
  - intros [?|[(item & ? & ?)|(name & -> & [? ?]%list_elem_of_filter)]];
      [by left | right; left; by exists item | right; right; by exists name].
  - intros [?|[(item & ? & ?)|(name & -> & ? & ?)]];
      [by left | right; left; by exists item | right; right].
    exists name. split; [done|]. by apply list_elem_of_filter.
Qed.

Lemma elem_of_pcb_nodes_of b n t :
  t ∈ pcb_nodes_of b n ↔ ∃ pad, pad ∈ GetNetItems b n ∧ pad_token pad = t.
Proof.
  unfold pcb_nodes_of. rewrite elem_of_list_to_set, list_elem_of_fmap.
  naive_solver.
Qed.

(** X14. A message of extra connections is only there for a net of the
    board, not the net 0, whose name the schematic has; it lists, each
    once and at least one, the tokens of the pads of that net that the
    schematic has not under that name. A message of missing connections
    lists in the same way the tokens that the schematic has under the name
    and that no pad of the net gives. *)
Theorem net_difference_messages (b : BOARD) (net_nodes : list (pystr * gset string))
    (net_name : string) (dif : list string) :
  let out := check_nets b net_nodes [] in
  (NetExtra net_name dif ∈ out →
   ∃ item sch_nodes,
     item ∈ board_nets b ∧ GetNetname item.2 = net_name ∧
     PyDict.get net_nodes (Some net_name) = Some sch_nodes ∧
     dif ≠ [] ∧ NoDup dif ∧
     ∀ t, t ∈ dif ↔
          (∃ pad, pad ∈ GetNetItems b item.1 ∧ pad_token pad = t) ∧
          t ∉ sch_nodes) ∧
  (NetMissing net_name dif ∈ out →
   ∃ item sch_nodes,
     item ∈ board_nets b ∧ GetNetname item.2 = net_name ∧
     PyDict.get net_nodes (Some net_name) = Some sch_nodes ∧
     dif ≠ [] ∧ NoDup dif ∧
     ∀ t, t ∈ dif ↔
          t ∈ sch_nodes ∧
          ¬ ∃ pad, pad ∈ GetNetItems b item.1 ∧ pad_token pad = t).
Proof.
  simpl. split; rewrite elem_of_check_nets.
  - intros [Hx|[(item & Hitem & Hx)|(? & [=] & _)]].
    { unfold count_msgs in Hx. case_decide;
        [by apply list_elem_of_singleton in Hx | by apply elem_of_nil in Hx]. }
    unfold net_msgs in Hx. case_decide as Hz; [by apply elem_of_nil in Hx|].
    destruct (PyDict.get net_nodes _) as [sch_nodes|] eqn:Hget;
      [|by apply list_elem_of_singleton in Hx].
    unfold endpoint_msgs in Hx. apply elem_of_app in Hx as [Hx|Hx];
      case_decide as Hd; try (by apply elem_of_nil in Hx);
      apply list_elem_of_singleton in Hx; [|done].
    injection Hx as -> ->. exists item, sch_nodes.
    split; [by apply elem_of_board_nets|]. split; [done|]. split; [done|].
    split; [by rewrite set_iter_nil|]. split; [apply NoDup_set_iter|].
    intros t. by rewrite elem_of_set_iter, elem_of_difference,
      elem_of_pcb_nodes_of.
  - intros [Hx|[(item & Hitem & Hx)|(? & [=] & _)]].
    { unfold count_msgs in Hx. case_decide;
        [by apply list_elem_of_singleton in Hx | by apply elem_of_nil in Hx]. }
    unfold net_msgs in Hx. case_decide as Hz; [by apply elem_of_nil in Hx|].
    destruct (PyDict.get net_nodes _) as [sch_nodes|] eqn:Hget;
      [|by apply list_elem_of_singleton in Hx].
    unfold endpoint_msgs in Hx. apply elem_of_app in Hx as [Hx|Hx];
      case_decide as Hd; try (by apply elem_of_nil in Hx);
      apply list_elem_of_singleton in Hx; [done|].
    injection Hx as -> ->. exists item, sch_nodes.
    split; [by apply elem_of_board_nets|]. split; [done|]. split; [done|].
    split; [by rewrite set_iter_nil|]. split; [apply NoDup_set_iter|].
    intros t. by rewrite elem_of_set_iter, elem_of_difference,
      elem_of_pcb_nodes_of.
Qed.

Lemma omap_not_in_sch_net_msgs b net_nodes item :
  omap not_in_sch_name (net_msgs b net_nodes item) =
  if decide (item.1 ≠ 0%Z ∧
             PyDict.get net_nodes (Some (GetNetname item.2)) = None)
  then [GetNetname item.2] else [].
Proof.
  unfold net_msgs. destruct (decide (item.1 = 0%Z)) as [Hz|Hz].
  { by rewrite decide_False by (by intros [? _]). }
  destruct (PyDict.get net_nodes _) as [sch_nodes|].
  - rewrite decide_False by (by intros [_ ?]). unfold endpoint_msgs.
    by repeat case_decide.
  - by rewrite decide_True.
Qed.

Lemma omap_not_in_pcb_net_msgs b net_nodes item :
  omap not_in_pcb_name (net_msgs b net_nodes item) = [].
Proof.
  unfold net_msgs. case_decide; [done|].
  destruct (PyDict.get net_nodes _); [|done].
  unfold endpoint_msgs. by repeat case_decide.
Qed.

(** X15. The messages "not in schematic" come one for each net of the
    board, not the net 0, whose name the schematic has not, in the order
    of the nets of the board; the messages "not in PCB" come one for each
    name of the schematic that no such net of the board has, in the order
    of the dictionary. No order of a set has a part in them. *)
Theorem net_presence_messages (b : BOARD) (net_nodes : list (pystr * gset string)) :
  let out := check_nets b net_nodes [] in
  omap not_in_sch_name out =
    filter (λ net_name, PyDict.get net_nodes (Some net_name) = None)
      (board_net_names b) ∧
  omap not_in_pcb_name out =
    filter (λ name, name ∉ Some <$> board_net_names b) (PyDict.keys net_nodes).
Proof.
  simpl. rewrite check_nets_eq. simpl. rewrite !omap_app, !omap_bind.
  split.
  - assert (omap not_in_sch_name (count_msgs b net_nodes) = []) as ->.
    { unfold count_msgs. by case_decide. }
    assert (∀ l : list pystr, omap not_in_sch_name (NetNotInPCB <$> l) = [])
      as ->.
    { intros l. by induction l. }
    rewrite app_nil_r. simpl. unfold board_net_names, board_nets.
    induction (NetsByNetcode b) as [|item nets IH]; [done|].
    rewrite bind_cons, IH, omap_not_in_sch_net_msgs, filter_cons.
    destruct (decide (item.1 ≠ 0%Z)) as [Hz|Hz].
    + rewrite fmap_cons, filter_cons. simpl.
      destruct (PyDict.get net_nodes _).
      * by rewrite !decide_False by (by intros [? ?] || done).
      * by rewrite !decide_True.
    + by rewrite decide_False by (by intros [? _]).
  - assert (omap not_in_pcb_name (count_msgs b net_nodes) = []) as ->.
    { unfold count_msgs. by case_decide. }
    rewrite (proj2 (bind_nil_iff _ _))
      by (intros item _; apply omap_not_in_pcb_net_msgs).
    simpl.
    assert (∀ l : list pystr, omap not_in_pcb_name (NetNotInPCB <$> l) = l)
      as ->.
    { intros l. induction l; [done|]. simpl. by f_equal. }
    apply filter_ext_in. intros name Hname.
    by rewrite pcb_net_names_board.
Qed.

End net_messages.

(** ** Edge cases of the two sides together *)

Section edges.
Context `{!PySetOrder}.

Lemma msg_field_ref x ref : msg_field x = Some ref → msg_ref x = Some (Some ref).
Proof. destruct x; simpl; congruence. Qed.

(** X16. For a footprint of the board whose reference no other footprint
    has and that the schematic has, the messages of footprint and of value
    mismatch about it are: the footprint one when the footprint names
    differ, then the value one when the values differ, each showing the
    side of the board and then the side of the schematic. *)
Theorem field_messages_of_component (b : BOARD) (comps : list (pystr * Component))
    (m : Module_) (sch_data : Component) :
  NoDup (GetReference <$> get_modules b) →
  m ∈ get_modules b →
  PyDict.get comps (Some (GetReference m)) = Some sch_data →
  let ref := GetReference m in
  filter (λ x, msg_field x = Some ref) (check_components b comps []) =
    (if decide (fp sch_data ≠ Some (GetFPIDAsString m))
     then [FootprintMismatch ref (GetFPIDAsString m) (fp sch_data)] else []) ++
    (if decide (val sch_data ≠ Some (GetValue m))
     then [ValueMismatch ref (GetValue m) (val sch_data)] else []) ∧
  render (FootprintMismatch ref (GetFPIDAsString m) (fp sch_data)) =
    ref +:+ " footprint mismatch (PCB: `" +:+ GetFPIDAsString m +:+
    "` vs schematic: `" +:+ str_ (fp sch_data) +:+ "`)" ∧
  render (ValueMismatch ref (GetValue m) (val sch_data)) =
    ref +:+ " value mismatch (PCB: `" +:+ GetValue m +:+
    "` vs schematic: `" +:+ str_ (val sch_data) +:+ "`)".
Proof.
  intros Hnd Hm Hget ref. subst ref. split; [|done].
  rewrite check_components_eq. simpl.
  rewrite filter_app, (filter_none _ (CompNotInPCB <$> _)), app_nil_r
    by (by intros x (k & -> & _)%list_elem_of_fmap).
  rewrite filter_bind.
  rewrite (bind_filter_support (λ m', GetReference m' = GetReference m)).
  2:{ intros m' _ Hne. apply filter_none.
      intros x Hx%module_msgs_ref Hf%msg_field_ref. congruence. }
  rewrite (filter_key_NoDup GetReference), bind_singleton by done.
  unfold module_msgs. rewrite Hget. rewrite !filter_app.
  rewrite (filter_none _ (_ ≫= _)), (filter_none _ (PCBPropNotInSch _ <$> _)).
  - simpl. rewrite app_nil_r.
    f_equal; case_decide; by rewrite ?filter_cons_True.
  - by intros x (p & -> & _)%list_elem_of_fmap.
  - intros x (item & Hx%prop_msgs_prop & _)%list_elem_of_bind.
    by destruct x.
Qed.

(** X17. A [comp] with no [ref] is kept under [None], which no footprint
    of the board has: it is always reported as "None found in schematic,
    but not in PCB". A [net] with no [name] is always reported as
    "Net `None` not in PCB". *)
Theorem missing_ref_or_name (b : BOARD) (fname : string) (root : Element)
    (comps : list (pystr * Component)) (net_nodes : list (pystr * gset string)) :
  tag root = "export" →
  load_xml fname (inr root) = Ok (comps, net_nodes) →
  ((∃ c, c ∈ comp_elements root ∧ attr_get "ref" c = None) →
   CompNotInPCB None ∈ check_components b comps []) ∧
  ((∃ n, n ∈ net_elements root ∧ attr_get "name" n = None) →
   NetNotInPCB None ∈ check_nets b net_nodes []) ∧
  render (CompNotInPCB None) = "None found in schematic, but not in PCB" ∧
  render (NetNotInPCB None) = "Net `None` not in PCB".
Proof.
  intros Htag Hload. rewrite load_xml_export in Hload by done.
  destruct (load_nets root) as [nn| |] eqn:Hnn; simplify_eq/=.
  rewrite load_nets_Ok in Hnn by (by eapply load_nets_Ok_inv).
  injection Hnn as <-. split; [|split; [|done]].
  - intros (c & Hc & Href). apply elem_of_check_components. right.
    exists None. split; [done|]. split; [|done].
    rewrite load_comps_from_items, elem_of_keys_from_items.
    rewrite <- list_fmap_compose, <- Href.
    by apply (list_elem_of_fmap_2 (fst ∘ comp_item)).
  - intros (n & Hn & Hname). apply elem_of_check_nets. right. right.
    exists None. split; [done|]. split.
    + rewrite elem_of_keys_from_items, <- list_fmap_compose, <- Hname.
      by apply (list_elem_of_fmap_2 (fst ∘ net_item)).
    + by intros (item & _ & [=] & _)%elem_of_pcb_net_names.
Qed.

(** X18. A [value] child with no text gives the value [None], which is not
    the value of any footprint, not even an empty one: when the [comp] is
    the last one with its reference, every footprint of the board with
    that reference gets a value mismatch that shows [None] for the
    schematic. *)
Theorem value_without_text (b : BOARD) (root c x : Element) (m : Module_) :
  last (filter (λ c', attr_get "ref" c' = Some (GetReference m))
          (comp_elements root)) = Some c →
  find "value" c = Some x →
  text x = None →
  m ∈ get_modules b →
  ValueMismatch (GetReference m) (GetValue m) None
    ∈ check_components b (load_comps root) [] ∧
  render (ValueMismatch (GetReference m) (GetValue m) None) =
    GetReference m +:+ " value mismatch (PCB: `" +:+ GetValue m +:+
    "` vs schematic: `None`)".
Proof.
  intros Hlast Hfind Htext Hm. split; [|done].
  apply elem_of_check_components. left. exists m. split; [done|].
  apply elem_of_module_msgs.
  assert (PyDict.get (load_comps root) (Some (GetReference m))
          = Some (comp_item c).2) as ->.
  { rewrite load_comps_from_items, get_from_items.
    rewrite (filter_fmap (λ kv : pystr * Component, kv.1 = Some (GetReference m))).
    rewrite fmap_last. simpl. by rewrite Hlast. }
  right. left. simpl. unfold child_text. rewrite Hfind, Htext. done.
Qed.

(** X19. The value and the footprint of a [comp] are the text of its
    first [value] and first [footprint] child: a second such child, or one
    further down, is not looked at. *)
Theorem comp_fields_first_child (c x : Element) (t : string)
    (before after : list Element) :
  children c = before ++ x :: after →
  tag x = t →
  (∀ y, y ∈ before → tag y ≠ t) →
  child_text t c = text x ∧
  (t = "value" → val (comp_item c).2 = text x) ∧
  (t = "footprint" → fp (comp_item c).2 = text x).
Proof.
  intros Hch Htag Hbefore.
  assert (child_text t c = text x) as Htext.
  { unfold child_text, find. rewrite Hch, filter_app, filter_none by done.
    by rewrite filter_cons_True by done. }
  split; [done|]. split; intros ->; done.
Qed.

End edges.

(** ** The further properties on the sample inputs *)

Lemma load_xml_export_outcome_witness :
  (nodes_ok sample_xml ↔ ∃ r, load_xml "proj.xml" (inr sample_xml) = Ok r) ∧
  (nodes_ok sample_xml →
     load_xml "proj.xml" (inr sample_xml) =
     Ok (load_comps sample_xml,
         PyDict.from_items (net_item <$> net_elements sample_xml))) ∧
  (¬ nodes_ok sample_xml → load_xml "proj.xml" (inr sample_xml) = Raise TypeError).
Proof. apply (load_xml_export_outcome "proj.xml" sample_xml). reflexivity. Defined.

Lemma load_nets_lookup_witness :
  PyDict.get sample_net_nodes (Some "GND") =
  net_tokens <$>
    last (filter (λ n, attr_get "name" n = Some "GND") (net_elements sample_xml)).
Proof.
  apply (proj1 (load_nets_lookup "proj.xml" sample_xml sample_comps
                  sample_net_nodes eq_refl ltac:(vm_compute; reflexivity))).
Defined.

Lemma load_xml_keys_witness :
  PyDict.keys sample_comps =
  reverse (remove_dups (reverse (attr_get "ref" <$> comp_elements sample_xml))).
Proof.
  apply (proj1 (load_xml_keys "proj.xml" sample_xml sample_comps
                  sample_net_nodes eq_refl ltac:(vm_compute; reflexivity))).
Defined.

Lemma load_xml_reads_four_attributes_witness :
  load_xml "proj.xml" (inr (map_attrib drop_code sample_xml)) =
  load_xml "proj.xml" (inr sample_xml).
Proof.
  apply (load_xml_reads_four_attributes drop_code).
  intros t a name Hname. unfold drop_code.
  assert (name ≠ "code") as Hne.
  { intros ->. apply list_elem_of_In in Hname. simpl in Hname.
    repeat destruct Hname as [Hname|Hname]; done. }
  induction a as [|[k v] a IH]; [reflexivity|].
  rewrite filter_cons. simpl. destruct (decide (name = k)) as [->|Hk].
  - rewrite decide_True by done. simpl. by rewrite decide_True.
  - case_decide; simpl; [by rewrite decide_False | done].
Defined.

Lemma as_warnings_demotes_witness :
  (@check_pcb_parity order_fwd sample_misc sample_gs true (inr sample_xml)).1 =
  @demote sample_misc <$>
    (@check_pcb_parity order_fwd sample_misc sample_gs false (inr sample_xml)).1.
Proof.
  apply (@as_warnings_demotes order_fwd sample_misc sample_gs (inr sample_xml)).
  split; [reflexivity | left; reflexivity].
Defined.

Lemma check_pcb_parity_outcomes_witness :
  true = true ∧
  (@check_pcb_parity order_fwd sample_misc sample_gs true (inr sample_xml)).2
  = Ok tt.
Proof.
  apply (proj1 (proj2 (proj2
           (@check_pcb_parity_outcomes order_fwd sample_misc sample_gs true
              (inr sample_xml))))
         "(W106) R9 found in PCB, but not in schematic").
  vm_compute. do 4 right. left.
Defined.

Lemma net_difference_messages_witness :
  ∃ item sch_nodes,
    item ∈ board_nets sample_board ∧ GetNetname item.2 = "GND" ∧
    PyDict.get sample_net_nodes (Some "GND") = Some sch_nodes ∧
    ["R9 pin 1"] ≠ [] ∧ NoDup ["R9 pin 1"] ∧
    ∀ t, t ∈ ["R9 pin 1"] ↔
         (∃ pad, pad ∈ GetNetItems sample_board item.1 ∧ pad_token pad = t) ∧
         t ∉ sch_nodes.
Proof.
  apply (proj1 (@net_difference_messages order_fwd sample_board sample_net_nodes
                  "GND" ["R9 pin 1"])).
  vm_compute. right. left.
Defined.

Lemma field_messages_of_component_witness :
  filter (λ x, msg_field x = Some "R1")
    (@check_components order_fwd sample_board sample_comps []) =
  [ValueMismatch "R1" "1k" (Some "10k")].
Proof.
  apply (proj1 (@field_messages_of_component order_fwd sample_board sample_comps
                  (mkModule "R1" "R_0603" "1k" [("Tol", "1%")])
                  (mkComponent (Some "10k") (Some "R_0603") [(Some "MPN", Some "A")])
                  ltac:(apply (bool_decide_unpack _); vm_compute; exact I)
                  ltac:(left) eq_refl)).
Defined.

Lemma missing_ref_or_name_witness :
  CompNotInPCB None
    ∈ @check_components order_fwd sample_board (load_comps sample_xml_no_ref) [].
Proof.
  apply (proj1 (@missing_ref_or_name order_fwd sample_board "proj.xml"
                  sample_xml_no_ref (load_comps sample_xml_no_ref)
                  [(None, ∅)] eq_refl ltac:(vm_compute; reflexivity))).
  exists (leaf "comp" [] None). split; [left | reflexivity].
Defined.

Lemma comp_fields_first_child_witness :
  child_text "value" (Elem "comp" [("ref", "R1")] None
                        [ leaf "value" [] (Some "10k"); leaf "value" [] (Some "1k") ])
  = Some "10k".
Proof.
  apply (proj1 (comp_fields_first_child
                  (Elem "comp" [("ref", "R1")] None
                     [ leaf "value" [] (Some "10k"); leaf "value" [] (Some "1k") ])
                  (leaf "value" [] (Some "10k")) "value" []
                  [ leaf "value" [] (Some "1k") ] eq_refl eq_refl
                  ltac:(intros y Hy; by apply elem_of_nil in Hy))).
Defined.

Lemma value_without_text_witness :
  ValueMismatch "R1" "1k" None
    ∈ @check_components order_fwd sample_board (load_comps sample_xml_empty_value) [].
Proof.
  apply (proj1 (@value_without_text order_fwd sample_board sample_xml_empty_value
                  (Elem "comp" [("ref", "R1")] None [ leaf "value" [] None ])
                  (leaf "value" [] None)
                  (mkModule "R1" "R_0603" "1k" [("Tol", "1%")])
                  eq_refl eq_refl eq_refl ltac:(left))).
Defined.
